(** * thebot: the dispatch core, the namespaced storage, the capability
    registry and the worker lifecycle of [thebot/__init__.py]

    A shallow embedding of the Python module, with the properties of its
    specification stated and settled on it.

    - [Py]        Python values, exceptions and results;
    - [Storage]   class [Storage], views over one shared shelf;
    - [Registry]  decorator [route] and [Plugin.get_callbacks];
    - [Dispatch]  [Bot.on_request];
    - [Worker]    [ThreadedPlugin.start_worker], [stop_worker], [_worker]. *)

From Stdlib Require Import ZArith.
From stdpp Require Import gmap strings list fin_maps sorting.

(** ** Python values, exceptions, results *)

Module Py.

(** The objects the modelled code stores and returns.  [VNone] is Python's
    [None], the only value for which [x is None] holds. *)
Inductive value : Type :=
| VNone
| VBool (b : bool)
| VInt (n : Z)
| VStr (s : string)
| VDict (d : list (string * string)).

(** Exception classes raised in or through the modelled code.  The first
    group derives from [Exception]; [SystemExit], [KeyboardInterrupt] and
    [GeneratorExit] derive from [BaseException] only. *)
Inductive exn : Type :=
| KeyError (key : string)
| RuntimeError (msg : string)
| TypeError (msg : string)
| ValueError (msg : string)
| NotImplementedError (msg : string)
| AttributeError (msg : string)
| ReError (msg : string)
| SystemExit (code : Z)
| KeyboardInterrupt
| GeneratorExit.

(** [isinstance(e, Exception)]: what a clause [except Exception:] catches. *)
Definition is_Exception (e : exn) : bool :=
  match e with
  | SystemExit _ | KeyboardInterrupt | GeneratorExit => false
  | _ => true
  end.

(** The outcome of a call: a returned value or a raised exception. *)
Inductive result (A : Type) : Type :=
| Ok (a : A)
| Raise (e : exn).
Arguments Ok {A} a.
Arguments Raise {A} e.

Definition raises {A} (r : result A) : bool :=
  match r with Ok _ => false | Raise _ => true end.

(** [x.startswith(p)] on byte strings. *)
Definition startswith (x p : string) : bool := String.prefix p x.

End Py.

(** ** The namespaced storage: class [Storage] *)

Module Storage.
Import Py.

(** A shelf is the mapping behind [shelve.open(filename)]: string keys to
    stored objects.  Shelf objects live in a heap indexed by identity, so
    that two [Storage] views built on one shelf share every write. *)
Abbreviation shelf := (gmap string value).
Abbreviation heap := (gmap nat (gmap string value)).

(** An instance of [Storage]: the shelf it holds ([self._shelve], by
    identity) and [self.prefix]. *)
Record Storage : Type := {
  _shelve : nat;
  prefix : string
}.

(** [self._shelve] dereferenced. *)
Definition the_shelf (self : Storage) (h : heap) : gmap string value :=
  h !!! _shelve self.

(** [Storage(filename, prefix='')] for a shelf that is already open: the
    root view built by [Bot.__init__]. *)
Definition __init__ (filename : nat) (prefix : string) : Storage :=
  {| _shelve := filename; prefix := prefix |}.

(** [self._shelve.keys()]: the keys of the shelf, in the shelf's order. *)
Definition shelf_keys (d : gmap string value) : list string :=
  (map_to_list d).*1.

(** [def __getitem__(self, name): return self._shelve.__getitem__(self.prefix + name)] *)
Definition __getitem__ (self : Storage) (name : string) (h : heap)
  : result value :=
  match the_shelf self h !! (prefix self +:+ name) with
  | Some v => Ok v
  | None => Raise (KeyError (prefix self +:+ name))
  end.

(** [def get(self, name): return self._shelve.get(self.prefix + name)];
    the shelf's [get] answers [None] for a key it does not hold. *)
Definition get (self : Storage) (name : string) (h : heap) : result value :=
  match the_shelf self h !! (prefix self +:+ name) with
  | Some v => Ok v
  | None => Ok VNone
  end.

(** [def __setitem__(self, name, value)] *)
Definition __setitem__ (self : Storage) (name : string) (v : value)
  (h : heap) : heap :=
  <[_shelve self := <[prefix self +:+ name := v]> (the_shelf self h)]> h.

(** [def keys(self):
       return filter(lambda x: x.startswith(self.prefix), self._shelve.keys())] *)
Definition keys (self : Storage) (h : heap) : list string :=
  filter (λ x, startswith x (prefix self) = true)
         (shelf_keys (the_shelf self h)).

(** [def clear(self):
       for key in self.keys(): del self._shelve[key]] *)
Definition clear (self : Storage) (h : heap) : heap :=
  <[_shelve self :=
      foldl (λ d key, delete key d) (the_shelf self h) (keys self h)]> h.

(** [def with_prefix(self, prefix): return Storage(self._shelve, prefix=prefix)] *)
Definition with_prefix (self : Storage) (prefix : string) : Storage :=
  __init__ (_shelve self) prefix.

(** *** The specification's reading of the operations *)

(** Spec, 4.1: [keys()] returns the logical keys of the namespace, prefix
    stripped: [K] is listed exactly when [prefix + K] is in the shelf. *)
Definition keys_are_stripped (self : Storage) (h : heap) : Prop :=
  ∀ K : string,
    K ∈ keys self h ↔ is_Some (the_shelf self h !! (prefix self +:+ K)).

(** Spec, 4.1: [withPrefix(Q)] on a view with prefix [P] is the view of the
    same shelf with prefix [P + Q]. *)
Definition with_prefix_appends (self : Storage) (Q : string) : Prop :=
  with_prefix self Q
  = {| _shelve := _shelve self; prefix := prefix self +:+ Q |}.

(** Spec, 8: for two views of one shelf with distinct prefixes, a key
    written through the first is visible neither in [keys()] of the second
    nor through any [get] of the second, and is visible through a third view
    with the writer's prefix. *)
Definition distinct_prefixes_isolate : Prop :=
  ∀ (h : heap) (root : Storage) (P1 P2 K : string) (v : value),
    P1 ≠ P2 →
    let first := with_prefix root P1 in
    let second := with_prefix root P2 in
    let third := with_prefix root P1 in
    let h' := __setitem__ first K v h in
    ((prefix first +:+ K) ∉ keys second h')
    ∧ (∀ K', get second K' h' = get second K' h)
    ∧ get third K h' = Ok v
    ∧ (prefix first +:+ K) ∈ keys third h'.

(** Spec, 4.1 and 7: a read of an absent key, by either read operation,
    fails with the NotFound condition ([KeyError]), so that it differs from
    the read of a key that holds [None]. *)
Definition reads_signal_not_found : Prop :=
  ∀ (self : Storage) (h : heap) (name : string),
    (the_shelf self h !! (prefix self +:+ name)) = None →
    (∃ e, __getitem__ self name h = Raise e)
    ∧ (∃ e, get self name h = Raise e).

(** *** Concrete stores of the test suite *)

(** [test_storage_nesting]: the root view and two namespaces. *)
Definition storage : Storage := __init__ 0 "".
Definition first : Storage := with_prefix storage "first:".
Definition second : Storage := with_prefix storage "second:".

Definition nesting_heap : heap :=
  __setitem__ second "one" (VDict [("some", "dict")])
    (__setitem__ first "blah" (VStr "minor") ∅).

End Storage.

(** ** The capability registry: [route] and [Plugin.get_callbacks] *)

Module Registry.
Import Py.

(** A Python function object, as far as the registry looks at it: its
    name, the attribute [_patterns] ([None] here when the attribute is
    missing) and what calling it does (left abstract in [B]). *)
Record function (B : Type) : Type := {
  __name__ : string;
  _patterns : option (list string);
  __call__ : B
}.
Arguments __name__ {B} f.
Arguments _patterns {B} f.
Arguments __call__ {B} f.

(** An attribute of a plugin instance: a method that may carry
    [_patterns], or any other object (data such as [self.bot], inherited
    methods, [__class__]), of which only [callable(value)] matters. *)
Inductive attr (B : Type) : Type :=
| Function (f : function B)
| Object (is_callable : bool).
Arguments Function {B} f.
Arguments Object {B} is_callable.

(** One [def] of a class body: the [route] patterns written above it, top
    to bottom, and the function defined. *)
Record method_def (B : Type) : Type := {
  decorators : list string;
  def : function B
}.
Arguments decorators {B} m.
Arguments def {B} m.

Section WithBehaviour.
Context {B : Type}.

(** [def route(pattern)]: the decorator [deco] it returns, applied to
    [func]. *)
Definition route (pattern : string) (func : function B) : function B :=
  let patterns :=
    match _patterns func with
    | None => []
    | Some patterns => patterns
    end in
  {| __name__ := __name__ func;
     _patterns := Some (patterns ++ [pattern]);
     __call__ := __call__ func |}.

(** A decorated [def]: Python applies the decorator nearest to the [def]
    first, so the list written top to bottom is applied from its end. *)
Definition decorate (m : method_def B) : function B :=
  foldr route (def m) (decorators m).

(** The namespace a class body leaves: each [def] binds its name, a later
    [def] of the same name replacing an earlier one. *)
Definition class_dict (body : list (method_def B)) : gmap string (attr B) :=
  foldl (λ ns m, <[__name__ (def m) := Function (decorate m)]> ns) ∅ body.

(** What [Plugin.__init__] sets on the instance. *)
Definition instance_dict : gmap string (attr B) :=
  <["bot" := Object false]> (<["storage" := Object false]> ∅).

(** What an instance inherits from [Plugin] and [object]; none of these
    carries [_patterns]. *)
Definition Plugin_dict : gmap string (attr B) :=
  <["__init__" := Object true]>
    (<["get_callbacks" := Object true]>
       (<["__class__" := Object true]>
          (<["__doc__" := Object false]>
             (<["__module__" := Object false]> ∅)))).

(** The attributes of an instance of a [Plugin] subclass with the given
    body: instance attributes hide class attributes, which hide inherited
    ones. *)
Definition instantiate (body : list (method_def B)) : gmap string (attr B) :=
  instance_dict ∪ (class_dict body ∪ Plugin_dict).

(** The order of Python byte strings. *)
Definition str_le (x y : string) : Prop := String.leb x y = true.

#[global] Instance str_le_dec : RelDecision str_le.
Proof. intros x y. unfold str_le. apply _. Defined.

(** [dir(self)]: the attribute names, sorted. *)
Definition dir (self : gmap string (attr B)) : list string :=
  merge_sort str_le (map_to_list self).*1.

Definition callable (value : attr B) : bool :=
  match value with
  | Function _ => true
  | Object is_callable => is_callable
  end.

(** [getattr(value, '_patterns', [])], paired with the value as the
    generator yields it. *)
Definition yielded (value : attr B) : list (string * function B) :=
  match value with
  | Function f =>
      (λ pattern, (pattern, f)) <$> default [] (_patterns f)
  | Object _ => []
  end.

(** The body of the loop of [get_callbacks] for one [name]:
    [value = getattr(self, name)
     if callable(value):
         patterns = getattr(value, '_patterns', [])
         for pattern in patterns:
             yield (pattern, value)] *)
Definition yields (self : gmap string (attr B)) (name : string)
  : list (string * function B) :=
  match self !! name with
  | Some value => if callable value then yielded value else []
  | None => []
  end.

(** [def get_callbacks(self):
       for name in dir(self): ...] *)
Definition get_callbacks (self : gmap string (attr B))
  : list (string * function B) :=
  name ← dir self; yields self name.

(** *** The specification's reading *)

Definition name_of (m : method_def B) : string := __name__ (def m).

(** Spec, 4.4: the pairs come in declaration order, methods in the order
    of their [def]s and, for one method, patterns in the order written. *)
Definition declaration_order (body : list (method_def B))
  : list (string * function B) :=
  m ← body; (λ pattern, (pattern, decorate m)) <$> decorators m.

Definition callbacks_in_declaration_order (body : list (method_def B))
  : Prop :=
  get_callbacks (instantiate body) = declaration_order body.

End WithBehaviour.

(** [TestPlugin] of the test suite: [show_a_cat] is declared before
    [find]. *)
Definition TestPlugin : list (method_def unit) :=
  [ {| decorators := ["show me a cat"];
       def := {| __name__ := "show_a_cat"; _patterns := None;
                 __call__ := tt |} |};
    {| decorators := ["find (?P<this>.*)"];
       def := {| __name__ := "find"; _patterns := None; __call__ := tt |} |} ].

(** A plugin with one handler under two routes. *)
Definition TwoRoutes : list (method_def unit) :=
  [ {| decorators := ["hello"; "hi"];
       def := {| __name__ := "greet"; _patterns := None; __call__ := tt |} |} ].

End Registry.

(** ** The dispatch core: [Bot.on_request] *)

Module Dispatch.
Import Py.

(** [match.groupdict()]: the named groups of a match, each with the text
    it captured ([None] for a group that took no part in the match). *)
Abbreviation groupdict := (list (string * option string)).

(** The double quote, and the text of the response to an unknown command:
    ['I don\'t know command "{0}".'.format(message)]. *)
Definition dquote : string := String (Ascii.ascii_of_nat 34) EmptyString.

Definition unknown_command (message : string) : string :=
  "I don't know command " +:+ dquote +:+ message +:+ dquote +:+ ".".

(** The text of the [RuntimeError] of [on_request] (the placeholder is not
    filled in by the code). *)
Definition should_not_return : string :=
  "Plugin {0} should not return response directly. Use request.respond(some message).".

Section WithWorld.
(** The state handlers and adapters act on (the shelf, the lines an
    adapter has written, ...). *)
Context {W : Type}.

(** [re.match(pattern, string)] of Python's library followed by
    [groupdict()]: [Ok None] when the pattern does not match at the start
    of the string, [Ok (Some groups)] when it does, an exception for a
    pattern that does not compile. *)
Variable re_match : string → string → result (option groupdict).

(** A [Request]: its message and the [respond] of its class. *)
Record Request : Type := {
  message : string;
  respond : string → W → result value * W
}.

(** What an adapter passes to its callback: the sentinel [EXIT] or a
    request. *)
Inductive incoming : Type :=
| EXIT
| Message (request : Request).

(** A handler: [callback(request, **groups)]. *)
Definition callback : Type := Request → groupdict → W → result value * W.

(** The fields of [Bot] that [on_request] reads and writes. *)
Record Bot : Type := {
  patterns : list (string * callback);
  exiting : bool
}.

(** The calls [on_request] makes, in order: the handler of the binding at
    an index of [self.patterns] with the keyword arguments passed, and
    [request.respond] with its text. *)
Inductive call : Type :=
| Called (index : nat) (groups : groupdict)
| Responded (text : string).

(** What one run of [on_request] leaves. *)
Record outcome : Type := {
  returned : result value;
  bot : Bot;
  world : W;
  calls : list call
}.

(** The [for ... else] of [on_request], from the binding at [index] on. *)
Fixpoint scan (request : Request) (index : nat)
  (bindings : list (string * callback)) (w : W)
  : result value * W * list call :=
  match bindings with
  | [] =>
      let text := unknown_command (message request) in
      match respond request text w with
      | (Ok _, w') => (Ok VNone, w', [Responded text])
      | (Raise e, w') => (Raise e, w', [Responded text])
      end
  | (pattern, callback) :: rest =>
      match re_match pattern (message request) with
      | Raise e => (Raise e, w, [])
      | Ok None => scan request (S index) rest w
      | Ok (Some groups) =>
          match callback request groups w with
          | (Raise e, w') => (Raise e, w', [Called index groups])
          | (Ok VNone, w') => (Ok VNone, w', [Called index groups])
          | (Ok _, w') =>
              (Raise (RuntimeError should_not_return), w',
               [Called index groups])
          end
      end
  end.

(** [def on_request(self, request)] *)
Definition on_request (self : Bot) (request : incoming) (w : W) : outcome :=
  match request with
  | EXIT =>
      {| returned := Ok VNone;
         bot := {| patterns := patterns self; exiting := true |};
         world := w;
         calls := [] |}
  | Message request =>
      let '(r, w', cs) := scan request 0 (patterns self) w in
      {| returned := r; bot := self; world := w'; calls := cs |}
  end.

(** *** The specification's reading *)

(** A binding whose pattern does not match the message. *)
Definition no_match (message : string) (binding : string * callback) : Prop :=
  re_match binding.1 message = Ok None.

(** What [on_request] returns after the handler it called: the handler's
    exception, [None] after a handler that returned [None], the
    [RuntimeError] otherwise. *)
Definition checked (r : result value) : result value :=
  match r with
  | Raise e => Raise e
  | Ok VNone => Ok VNone
  | Ok _ => Raise (RuntimeError should_not_return)
  end.

(** The handler calls among the calls of a run. *)
Definition is_handler_call (c : call) : bool :=
  match c with
  | Called _ _ => true
  | Responded _ => false
  end.

Definition handler_calls (cs : list call) : list call :=
  filter (λ c, is_handler_call c = true) cs.

(** Spec, 4.3, 7 and 8: for a message that no binding matches, dispatch
    invokes no handler, raises no error, and responds once with the
    unknown-command text. *)
Definition unknown_command_raises_no_error : Prop :=
  ∀ (self : Bot) (request : Request) (w : W),
    Forall (no_match (message request)) (patterns self) →
    let out := on_request self (Message request) w in
    handler_calls (calls out) = []
    ∧ raises (returned out) = false
    ∧ calls out = [Responded (unknown_command (message request))].

End WithWorld.

Arguments Request W : clear implicits.
Arguments incoming W : clear implicits.
Arguments callback W : clear implicits.
Arguments Bot W : clear implicits.
Arguments outcome W : clear implicits.

(** *** A matcher for the patterns of the test suite *)

(** The characters with a meaning of their own in a pattern. *)
Definition special (c : Ascii.ascii) : bool :=
  bool_decide (c ∈ String.list_ascii_of_string ".^$*+?{}[]\|()").

Fixpoint all_plain (pattern : string) : bool :=
  match pattern with
  | EmptyString => true
  | String c rest => negb (special c) && all_plain rest
  end.

(** [text] up to its first newline: what dot-star takes. *)
Fixpoint line (text : string) : string :=
  match text with
  | EmptyString => EmptyString
  | String c rest =>
      if bool_decide (c = Ascii.ascii_of_nat 10) then EmptyString
      else String c (line rest)
  end.

(** The text after [p] in [x], when [x] starts with [p]. *)
Fixpoint strip (p x : string) : option string :=
  match p, x with
  | EmptyString, _ => Some x
  | String a p', String b x' => if bool_decide (a = b) then strip p' x' else None
  | String _ _, EmptyString => None
  end.

(** A pattern of plain characters followed by one named group over
    dot-star (the pattern of [find] in the test suite): the literal part
    and the name. *)
Fixpoint split_group (pattern : string) : option (string * string) :=
  match pattern with
  | EmptyString => None
  | String c rest =>
      match strip "(?P<" pattern with
      | Some tail =>
          match String.index 0 ">" tail with
          | Some n =>
              if bool_decide
                   (String.substring n (String.length tail - n) tail = ">.*)")
              then Some (EmptyString, String.substring 0 n tail)
              else None
          | None => None
          end
      | None =>
          if special c then None
          else match split_group rest with
               | Some (lit, name) => Some (String c lit, name)
               | None => None
               end
      end
  end.

(** A pattern of plain characters closed by the dollar sign: the plain
    part. *)
Fixpoint split_dollar (pattern : string) : option string :=
  match pattern with
  | EmptyString => None
  | String c rest =>
      if bool_decide (pattern = "$") then Some EmptyString
      else if special c then None
      else match split_dollar rest with
           | Some lit => Some (String c lit)
           | None => None
           end
  end.

(** A leading caret changes nothing for a match at the start. *)
Definition drop_caret (pattern : string) : string :=
  match strip "^" pattern with
  | Some rest => rest
  | None => pattern
  end.

Definition newline : string := String (Ascii.ascii_of_nat 10) EmptyString.

(** [re.match] on three kinds of pattern, each after an optional caret:
    plain text, which matches the strings that start with it; plain text
    closed by the dollar sign, which matches that text alone or before one
    final newline; and plain text followed by one named group over
    dot-star, which captures the rest of the line.  Other patterns are
    outside this matcher and are reported as errors. *)
Definition plain_match (pattern text : string)
  : result (option groupdict) :=
  let pattern := drop_caret pattern in
  if all_plain pattern then
    Ok (if startswith text pattern then Some [] else None)
  else
    match split_dollar pattern, split_group pattern with
    | Some lit, _ =>
        Ok (match strip lit text with
            | Some rest =>
                if bool_decide (rest = EmptyString ∨ rest = newline)
                then Some [] else None
            | None => None
            end)
    | None, Some (lit, name) =>
        Ok (match strip lit text with
            | Some rest => Some [(name, Some (line rest))]
            | None => None
            end)
    | None, None => Raise (ReError "unsupported pattern")
    end.

(** *** The test suite's adapter, request and plugin *)

(** [TestRequest.respond] appends to the lines of the test adapter. *)
Definition TestRequest (message : string) : Request (list string) :=
  {| message := message;
     respond := λ text lines, (Ok VNone, lines ++ [text]) |}.

Definition show_a_cat : callback (list string) :=
  λ request _ lines, respond request "the Cat" lines.

Definition find : callback (list string) :=
  λ request groups lines,
    match groups with
    | [(_, Some this)] => respond request ("I found " +:+ this) lines
    | _ => (Raise (TypeError "find() got unexpected arguments"), lines)
    end.

(** [BadPlugin.do] of the test suite returns a string. *)
Definition do : callback (list string) :=
  λ _ _ lines, (Ok (VStr "Hello world"), lines).

(** The bot of the test suite, its patterns as [get_callbacks] yields
    them. *)
Definition test_bot : Bot (list string) :=
  {| patterns := [("find (?P<this>.*)", find); ("show me a cat", show_a_cat)];
     exiting := false |}.

(** The bot of [test_exception_raised_if_plugin_returns_not_none]. *)
Definition bad_bot : Bot (list string) :=
  {| patterns := [("^do$", do)]; exiting := false |}.

(** Two bindings whose patterns both match [show me a cat]. *)
Definition show : callback (list string) :=
  λ request _ lines, respond request "a show" lines.

Definition overlap_bot : Bot (list string) :=
  {| patterns := [("show me", show); ("show me a cat", show_a_cat)];
     exiting := false |}.

Definition overlap_bot_swapped : Bot (list string) :=
  {| patterns := [("show me a cat", show_a_cat); ("show me", show)];
     exiting := false |}.

End Dispatch.

(** ** The worker lifecycle: class [ThreadedPlugin] *)

Module Worker.
Import Py.

(** A [threading.Thread] created by [start_worker]: the plugin whose
    [_worker] it runs, the [interval] it passes, its [daemon] flag, and
    whether it [is_alive()] (from [start()] until [_worker] ends). *)
Record Thread : Type := {
  target : nat;
  kwargs_interval : Z;
  daemon : bool;
  alive : bool
}.

(** The attributes of a [ThreadedPlugin] instance that the lifecycle uses;
    [None] stands for an attribute not set yet, as
    [getattr(self, '_thread', None)] reads it. *)
Record ThreadedPlugin : Type := {
  ident : nat;
  _thread : option nat;
  _event : option nat
}.

(** The plugin together with the threads and events of the process, each
    thread and event known by its position. *)
Record state : Type := {
  self : ThreadedPlugin;
  threads : list Thread;
  events : list bool
}.

(** [thread.is_alive()] *)
Definition is_alive (s : state) (thread : nat) : bool :=
  match threads s !! thread with
  | Some th => alive th
  | None => false
  end.

(** [thread is not None and thread.is_alive()], for
    [thread = getattr(self, '_thread', None)]. *)
Definition has_live_worker (s : state) : bool :=
  match _thread (self s) with
  | Some thread => is_alive s thread
  | None => false
  end.

(** The thread [start_worker] creates and starts. *)
Definition new_thread (interval : Z) (s : state) : Thread :=
  {| target := ident (self s);
     kwargs_interval := interval;
     daemon := true;
     alive := true |}.

(** [def start_worker(self, interval=60)] *)
Definition start_worker (interval : Z) (s : state) : state :=
  if has_live_worker s then s
  else
    {| self := {| ident := ident (self s);
                  _thread := Some (length (threads s));
                  _event := Some (length (events s)) |};
       threads := threads s ++ [new_thread interval s];
       events := events s ++ [false] |}.

(** [def stop_worker(self)] *)
Definition stop_worker (s : state) : state :=
  match _event (self s) with
  | Some event =>
      {| self := self s;
         threads := threads s;
         events := <[event := true]> (events s) |}
  | None => s
  end.

(** The running loops of this plugin: live threads whose target is its
    [_worker]. *)
Definition active_loops (s : state) : list Thread :=
  filter (λ th, target th = ident (self s) ∧ alive th = true) (threads s).

Section Loop.
(** The state the plugin's hooks act on. *)
Context {W : Type}.

Variable do_job : W → result value * W.
Variable on_start on_stop : option (W → result value * W).

(** [self._event.is_set()] as the loop test of a given iteration reads
    it; the flag is set from other threads. *)
Variable event_is_set : nat → bool.

Variable interval : Z.

(** What the loop does that can be seen from outside: the calls of
    [do_job] with their outcome, and the records written by
    [logger.exception]; each with the iteration it happened in. *)
Inductive entry : Type :=
| Job (tick : nat) (r : result value)
| Logged (tick : nat) (e : exn).

Inductive status : Type :=
| Running (countdown : Z)
| Stopped
| Died (e : exn).

(** [while not self._event.is_set(): ...], for at most [fuel] iterations;
    one iteration ends with [time.sleep(1)]. *)
Fixpoint loop (fuel tick : nat) (countdown : Z) (w : W)
  : status * W * list entry :=
  match fuel with
  | O => (Running countdown, w, [])
  | S fuel =>
      if event_is_set tick then (Stopped, w, [])
      else if bool_decide (countdown = 0%Z) then
        let '(r, w1) := do_job w in
        match r with
        | Ok _ =>
            let '(st, w2, log) := loop fuel (S tick) interval w1 in
            (st, w2, Job tick r :: log)
        | Raise e =>
            if is_Exception e then
              let '(st, w2, log) := loop fuel (S tick) interval w1 in
              (st, w2, Job tick r :: Logged tick e :: log)
            else (Died e, w1, [Job tick r])
        end
      else loop fuel (S tick) (countdown - 1)%Z w
  end.

Definition run_hook (hook : option (W → result value * W)) (w : W)
  : result value * W :=
  match hook with
  | Some f => f w
  | None => (Ok VNone, w)
  end.

(** [def _worker(self, interval=60)] *)
Definition _worker (fuel : nat) (w : W) : status * W * list entry :=
  match run_hook on_start w with
  | (Raise e, w0) => (Died e, w0, [])
  | (Ok _, w0) =>
      match loop fuel 0 0%Z w0 with
      | (Stopped, w1, log) =>
          match run_hook on_stop w1 with
          | (Raise e, w2) => (Died e, w2, log)
          | (Ok _, w2) => (Stopped, w2, log)
          end
      | other => other
      end
  end.

(** *** The specification's reading *)

(** An outcome of [do_job] after which the loop goes on: a return, or an
    exception that [except Exception] catches. *)
Definition caught (r : result value) : bool :=
  match r with
  | Ok _ => true
  | Raise e => is_Exception e
  end.

(** What [logger.exception] writes after [do_job]. *)
Definition logged (tick : nat) (r : result value) : list entry :=
  match r with
  | Ok _ => []
  | Raise e => [Logged tick e]
  end.

(** Spec, 4.3 and 7: whatever [do_job] raises is caught and logged, and
    the loop goes on as after a call that returned. *)
Definition every_exception_is_caught : Prop :=
  ∀ (fuel tick : nat) (w w1 : W) (e : exn),
    event_is_set tick = false →
    do_job w = (Raise e, w1) →
    ∃ st w2 log,
      loop (S fuel) tick 0%Z w
      = (st, w2, Job tick (Raise e) :: Logged tick e :: log)
      ∧ loop fuel (S tick) interval w1 = (st, w2, log).

End Loop.

(** A plugin is well formed when the thread it records runs its own
    [_worker]. *)
Definition well_formed (s : state) : Prop :=
  ∀ thread th,
    _thread (self s) = Some thread → threads s !! thread = Some th →
    target th = ident (self s).

(** *** Plugins for the examples *)

(** [ThreadedPlugin.do_job] as inherited: [NotImplemented] is not
    callable, so the call raises [TypeError]. *)
Definition inherited_do_job : nat → result value * nat :=
  λ n, (Raise (TypeError "'NotImplementedType' object is not callable"), S n).

(** A job that ends the thread, as [sys.exit()] does.  The world counts
    the calls of [do_job]. *)
Definition exiting_job : nat → result value * nat :=
  λ n, (Raise (SystemExit 0), S n).

Definition never_set : nat → bool := λ _, false.

Definition fresh_plugin : state :=
  {| self := {| ident := 0; _thread := None; _event := None |};
     threads := [];
     events := [] |}.

End Worker.

(** ** More plugin classes for the registry *)

Module RegistryCases.
Import Py Registry.

(** [TestPlugin.show_a_cat] as written. *)
Definition show_a_cat_def : method_def unit :=
  {| decorators := ["show me a cat"];
     def := {| __name__ := "show_a_cat"; _patterns := None;
               __call__ := tt |} |}.

(** A second [def greet] under another route. *)
Definition greet_again : method_def unit :=
  {| decorators := ["bye"];
     def := {| __name__ := "greet"; _patterns := None; __call__ := tt |} |}.

Section WithBases.
Context {B : Type}.

(** The class attributes an instance finds through [type(self).__mro__]:
    [mro] holds the bodies of the plugin's class and of its base classes
    in that order, the class itself first, [Plugin] and [object] after the
    last; a name is taken from the first class that binds it. *)
Definition class_chain (mro : list (list (method_def B)))
  : gmap string (attr B) :=
  foldr (λ body inherited, class_dict body ∪ inherited) Plugin_dict mro.

(** The attributes of an instance of such a class: the instance
    attributes hide those of the classes. *)
Definition instantiate_mro (mro : list (list (method_def B)))
  : gmap string (attr B) :=
  instance_dict ∪ class_chain mro.

End WithBases.

(** A plugin class with two routed methods and a subclass of it, which
    adds a method and overrides [status] without a route. *)
Definition BasePlugin : list (method_def unit) :=
  [ {| decorators := ["ping"];
       def := {| __name__ := "ping"; _patterns := None; __call__ := tt |} |};
    {| decorators := ["status"];
       def := {| __name__ := "status"; _patterns := None; __call__ := tt |} |} ].

Definition ChildPlugin : list (method_def unit) :=
  [ {| decorators := ["pong"];
       def := {| __name__ := "pong"; _patterns := None; __call__ := tt |} |};
    {| decorators := [];
       def := {| __name__ := "status"; _patterns := None; __call__ := tt |} |} ].

End RegistryCases.

(** ** The help listing: [HelpPlugin.help] *)

Module Help.
Import Py Registry.

(** The separator of a help line, an em dash between two spaces; the
    source file is UTF-8, so the dash is the bytes 226, 128, 148. *)
Definition dash : string :=
  String (Ascii.ascii_of_nat 226)
    (String (Ascii.ascii_of_nat 128)
       (String (Ascii.ascii_of_nat 148) EmptyString)).

Definition newline : string := String (Ascii.ascii_of_nat 10) EmptyString.

(** What [help] reads of a binding: the pattern and [callback.__doc__]
    ([None] for a handler without docstring). *)
Abbreviation documented := (string * option string)%type.

(** The line of one binding; [if docstring:] fails for [None] and for the
    empty string. *)
Definition render (binding : documented) : string :=
  match binding.2 with
  | Some docstring =>
      if bool_decide (docstring = EmptyString) then "  " +:+ binding.1
      else "  " +:+ binding.1 +:+ " " +:+ dash +:+ " " +:+ docstring
  | None => "  " +:+ binding.1
  end.

Definition header : string := "I support following commands:".

(** [lines] after [lines.sort()] and [lines.insert(0, ...)]. *)
Definition help_lines (patterns : list documented) : list string :=
  header :: merge_sort str_le (render <$> patterns).

(** [sep.join(lines)] *)
Fixpoint join (sep : string) (lines : list string) : string :=
  match lines with
  | [] => EmptyString
  | [line] => line
  | line :: rest => line +:+ sep +:+ join sep rest
  end.

(** The text [help] passes to [request.respond]. *)
Definition help_text (patterns : list documented) : string :=
  join newline (help_lines patterns).

(** [def help(self, request)], for the bindings of [self.bot.patterns]. *)
Definition help {W : Type} (patterns : list documented)
  : Dispatch.callback W :=
  λ request _ w, Dispatch.respond request (help_text patterns) w.

(** The bindings of the bot of [test_help_command], with the docstrings of
    their handlers. *)
Definition test_patterns : list documented :=
  [("find (?P<this>.*)", Some "Making a fake search of the term.");
   ("show me a cat", Some "Shows a cat.");
   ("help", Some "Shows a help.")].

End Help.

(** ** Installing the plugins: [Bot.__init__] *)

Module Composer.
Import Py Registry.

Section WithHelp.
Context {B : Type}.

(** What calling [HelpPlugin.help] does. *)
Variable help : B.

(** [class HelpPlugin(Plugin)], its one method under the route [help]. *)
Definition HelpPlugin : list (method_def B) :=
  [ {| decorators := ["help"];
       def := {| __name__ := "help"; _patterns := None; __call__ := help |} |} ].

(** The function [help] once its decorator has run. *)
Definition routed_help : function B :=
  {| __name__ := "help"; _patterns := Some ["help"]; __call__ := help |}.

(** The plugin part of [Bot.__init__] when [plugins] is given:
    [plugin_classes = plugins
     plugin_classes.append(HelpPlugin)
     ...
     for plugin_cls in plugin_classes:
         p = plugin_cls(self)
         self.plugins.append(p)
         self.patterns.extend(p.get_callbacks())]
    It returns [self.patterns] and the list the caller passed, which
    [append] has changed in place. *)
Definition install (plugins : list (list (method_def B)))
  : list (string * function B) * list (list (method_def B)) :=
  let plugin_classes := plugins ++ [HelpPlugin] in
  (plugin_cls ← plugin_classes; get_callbacks (instantiate plugin_cls),
   plugin_classes).

(** [n] bots built one after the other from the same list object: the
    patterns of the last one. *)
Fixpoint install_again (n : nat) (plugins : list (list (method_def B)))
  : list (string * function B) :=
  match n with
  | O => (install plugins).1
  | S n => install_again n (install plugins).2
  end.

End WithHelp.

(** The bindings of a bot as [on_request] uses them: calling the bound
    method is calling the function. *)
Definition bindings {W : Type}
  (pairs : list (string * function (Dispatch.callback W)))
  : list (string * Dispatch.callback W) :=
  (λ pf, (pf.1, __call__ pf.2)) <$> pairs.

(** [TestPlugin] of the test suite with what its handlers do, and the bot
    built from it. *)
Definition TestPluginClass : list (method_def (Dispatch.callback (list string))) :=
  [ {| decorators := ["show me a cat"];
       def := {| __name__ := "show_a_cat"; _patterns := None;
                 __call__ := Dispatch.show_a_cat |} |};
    {| decorators := ["find (?P<this>.*)"];
       def := {| __name__ := "find"; _patterns := None;
                 __call__ := Dispatch.find |} |} ].

Definition composed_bot : Dispatch.Bot (list string) :=
  {| Dispatch.patterns :=
       bindings (install (Help.help Help.test_patterns) [TestPluginClass]).1;
     Dispatch.exiting := false |}.

End Composer.

(** ** Requests of the base class *)

Module BaseRequest.
Import Py Dispatch.

(** The text of the [NotImplementedError] of [Request.respond]. *)
Definition not_implemented : string :=
  "You have to implement 'respond' method in you Request class.".

(** [class Request(object)]: [respond] raises. *)
Definition base_Request {W : Type} (message : string) : Request W :=
  {| message := message;
     respond := λ _ w, (Raise (NotImplementedError not_implemented), w) |}.


(** A handler that fails after it has responded. *)
Definition failing : callback (list string) :=
  λ request _ lines,
    (Raise (ValueError "no cat"), (respond request "looking" lines).2).

End BaseRequest.

(** ** The worker lifecycle, seen from the process *)

Module Lifecycle.
Import Py Worker.

(** The end of a thread, when its [_worker] returns or dies: from then on
    [is_alive()] is false. *)
Definition thread_exit (thread : nat) (s : state) : state :=
  {| self := self s;
     threads :=
       alter (λ th, {| target := target th;
                       kwargs_interval := kwargs_interval th;
                       daemon := daemon th;
                       alive := false |}) thread (threads s);
     events := events s |}.

(** [event.is_set()] *)
Definition is_set (s : state) (event : nat) : bool :=
  default false (events s !! event).

(** The iterations of a log in which [do_job] was called. *)
Definition job_ticks (log : list entry) : list nat :=
  omap (λ x, match x with
             | Job tick _ => Some tick
             | Logged _ _ => None
             end) log.

(** A job that always returns; the world counts its calls. *)
Definition counting_job : nat → result value * nat :=
  λ n, (Ok VNone, S n).

(** The event is set from a given iteration on. *)
Definition set_from (t : nat) : nat → bool := λ k, bool_decide (t ≤ k).

End Lifecycle.

(** ** The mail adapter: [thebot/batteries/mail.py] *)

Module Mail.
Import Py.

(** [c.lower()] on a byte, in the C locale: the letters A to Z. *)
Definition lower_ascii (c : Ascii.ascii) : Ascii.ascii :=
  let n := Ascii.nat_of_ascii c in
  if (65 <=? n) && (n <=? 90) then Ascii.ascii_of_nat (n + 32) else c.

(** [s.lower()] *)
Fixpoint lower (s : string) : string :=
  match s with
  | EmptyString => EmptyString
  | String c rest => String (lower_ascii c) (lower rest)
  end.

(** The text of the [AttributeError] of [subject.lower()] when
    [self.subject] is [None]. *)
Definition no_lower : string := "'NoneType' object has no attribute 'lower'".

(** The subject [MailRequest.respond] passes to [adapter.send]:
    [subject = self.subject
     if not subject.lower().startswith('re: '):
         subject = 'Re: ' + subject]
    where [self.subject] is the [message['Subject']] of the mail answered,
    [None] for a mail without that header. *)
Definition reply_subject (subject : option string) : result string :=
  match subject with
  | None => Raise (AttributeError no_lower)
  | Some subject =>
      Ok (if negb (startswith (lower subject) "re: ") then "Re: " +:+ subject
          else subject)
  end.

(** ['@' in s] *)
Fixpoint has_at (s : string) : bool :=
  match s with
  | EmptyString => false
  | String c rest => bool_decide (c = Ascii.ascii_of_nat 64) || has_at rest
  end.

(** The text of the [RuntimeError] of [Adapter.send]. *)
Definition specify_smtp_from : string :=
  "Please, specify " +:+ Dispatch.dquote +:+ "--smtp-from" +:+ Dispatch.dquote
  +:+ " option.".

(** The envelope sender chosen by [Adapter.send], for
    [config.get('from')] and [config['username']]:
    [from_email = config.get('from')
     if from_email is None and '@' in config['username']:
         from_email = config['username']
     else:
         raise RuntimeError('Please, specify ... option.')] *)
Definition from_email (from : option string) (username : string)
  : result string :=
  match from with
  | None =>
      if has_at username then Ok username
      else Raise (RuntimeError specify_smtp_from)
  | Some _ => Raise (RuntimeError specify_smtp_from)
  end.

(** The options of [--smtp-...] as [send] reads them from
    [self.bot.config.smtp], the port after [int(...)]. *)
Record smtp_config : Type := {
  host : string;
  port : Z;
  username : string;
  password : string;
  from : option string
}.

(** The message [send] builds: its headers and its payload. *)
Record response : Type := {
  From : string;
  To : string;
  Subject : string;
  In_Reply_To : option string;
  body : string
}.

(** The calls [send] makes on [smtplib]: the constructor [SMTP] or
    [SMTP_SSL], and the methods of the server object. *)
Inductive smtp_call : Type :=
| SMTP (host : string) (port : Z)
| SMTP_SSL (host : string) (port : Z)
| login (username password : string)
| sendmail (from_addr to_addr : string) (msg : response)
| quit.

(** [if in_reply_to:] holds for a string that is not empty. *)
Definition truthy (in_reply_to : option string) : option string :=
  match in_reply_to with
  | Some EmptyString => None
  | other => other
  end.

(** [if port == 25: server = smtplib.SMTP(...) else: ...SMTP_SSL(...)] *)
Definition connect (config : smtp_config) : smtp_call :=
  if bool_decide (port config = 25%Z) then SMTP (host config) (port config)
  else SMTP_SSL (host config) (port config).

Section WithServer.
(** The exception a call on the SMTP server ends with, if any. *)
Variable server : smtp_call → option exn.

(** [def send(self, to_email, message, subject=..., in_reply_to=None)],
    the debug log record apart: what it returns or raises, and the calls
    it has made on the server. *)
Definition send (config : smtp_config) (to_email message subject : string)
  (in_reply_to : option string) : result value * list smtp_call :=
  let connect := connect config in
  match server connect with
  | Some e => (Raise e, [connect])
  | None =>
      let auth := login (username config) (password config) in
      match server auth with
      | Some e => (Raise e, [connect; auth])
      | None =>
          match from_email (from config) (username config) with
          | Raise e => (Raise e, [connect; auth])
          | Ok sender =>
              let msg := {| From := "dev.thebot@ya.ru";
                            To := to_email;
                            Subject := subject;
                            In_Reply_To := truthy in_reply_to;
                            body := message |} in
              let mail := sendmail sender to_email msg in
              match server mail with
              | Some e => (Raise e, [connect; auth; mail])
              | None =>
                  match server quit with
                  | Some e => (Raise e, [connect; auth; mail; quit])
                  | None => (Ok VNone, [connect; auth; mail; quit])
                  end
              end
          end
      end
  end.

End WithServer.

(** [True] for the calls that send a message or close the session. *)
Definition sends_or_quits (c : smtp_call) : bool :=
  match c with
  | sendmail _ _ _ | quit => true
  | _ => false
  end.

(** A server that accepts every call, and two configurations. *)
Definition accepting : smtp_call → option exn := λ _, None.

Definition with_from : smtp_config :=
  {| host := "localhost"; port := 25; username := "bot@example.org";
     password := "secret"; from := Some "bot@example.org" |}.

Definition without_from : smtp_config :=
  {| host := "localhost"; port := 465; username := "bot@example.org";
     password := "secret"; from := None |}.

(** A parsed e-mail message: one part with its content type, payload and
    charset parameter, or a multipart message with its parts. *)
#[warnings="-register-all"]
Inductive message : Type :=
| Part (content_type : string) (payload : string) (charset : option string)
| Multipart (parts : list message).


Section WithCodecs.
(** [payload.decode(charset, 'replace')]; it raises for a charset that is
    not known. *)
Variable decode : string → string → result string.

(** The text of a part: its payload, decoded when a charset is given. *)
Definition part_text (payload : string) (charset : option string)
  : result string :=
  match charset with
  | Some charset => decode payload charset
  | None => Ok payload
  end.

(** [def _get_text(message)], the inner function of
    [_get_text_from_email]: [Ok None] stands for falling off the end. *)
Fixpoint _get_text (message : message) : result (option string) :=
  match message with
  | Multipart parts =>
      (fix each (parts : list Mail.message) : result (option string) :=
         match parts with
         | [] => Ok None
         | part :: rest =>
             match _get_text part with
             | Ok None => each rest
             | found => found
             end
         end) parts
  | Part mimetype payload charset =>
      if bool_decide (mimetype = "text/plain") then
        match part_text payload charset with
        | Ok text => Ok (Some text)
        | Raise e => Raise e
        end
      else Ok None
  end.

Definition _get_text_from_email (message : message)
  : result (option string) :=
  _get_text message.

End WithCodecs.



(** A codec table with two entries. *)
Definition two_codecs (payload charset : string) : result string :=
  if bool_decide (charset = "ascii" ∨ charset = "utf-8") then Ok payload
  else Raise (ValueError ("unknown encoding: " +:+ charset)).

(** A message with an HTML part before its text part, both inside a
    nested multipart. *)
Definition alternative : message :=
  Multipart
    [ Multipart [ Part "text/html" "<b>find me</b>" (Some "utf-8");
                  Part "text/plain" "find me" (Some "utf-8") ];
      Part "text/plain" "attachment" None ].

Section WithSpaces.
(** The characters [strip()] removes: the white space of the string
    type at hand. *)
Variable is_space : Ascii.ascii → bool.

(** The line feed. *)
Definition LF : Ascii.ascii := Ascii.ascii_of_nat 10.

(** [text.split('\n')] *)
Fixpoint split (text : list Ascii.ascii) : list (list Ascii.ascii) :=
  match text with
  | [] => [[]]
  | c :: rest =>
      if bool_decide (c = LF) then [] :: split rest
      else match split rest with
           | line :: lines => (c :: line) :: lines
           | [] => [[c]]
           end
  end.

(** [split] undone: the lines with a line feed between them. *)
Fixpoint joined (lines : list (list Ascii.ascii)) : list Ascii.ascii :=
  match lines with
  | [] => []
  | [line] => line
  | line :: rest => line ++ LF :: joined rest
  end.

Fixpoint lstrip (line : list Ascii.ascii) : list Ascii.ascii :=
  match line with
  | [] => []
  | c :: rest => if is_space c then lstrip rest else line
  end.

Definition rstrip (line : list Ascii.ascii) : list Ascii.ascii :=
  reverse (lstrip (reverse line)).

(** [line.strip()] *)
Definition strip (line : list Ascii.ascii) : list Ascii.ascii :=
  rstrip (lstrip line).

(** The first non-empty line, as [Adapter._fetch_messages] selects it:
    [lines = text.split('\n')
     lines = (line.strip() for line in lines)
     lines = list(filter(None, lines))
     first_line = lines[0]]
    [None] stands for the [IndexError] of [lines[0]] on an empty list. *)
Definition first_line (text : list Ascii.ascii) : option (list Ascii.ascii) :=
  head (filter (λ line, line ≠ []) (strip <$> split text)).

End WithSpaces.

(** The white space of byte strings: space, tab, line feed, vertical tab,
    form feed, carriage return. *)
Definition ascii_space (c : Ascii.ascii) : bool :=
  bool_decide (Ascii.nat_of_ascii c ∈ [32; 9; 10; 11; 12; 13]).

(** What the [except Exception] of [_fetch_messages] may have to deal
    with: an exception of the modelled classes, or the [IndexError] of
    [lines[0]]. *)
Inductive failure : Type :=
| Raised (e : exn)
| IndexError.

Definition is_caught (f : failure) : bool :=
  match f with
  | Raised e => is_Exception e
  | IndexError => true
  end.

(** A message as [fetch_messages] yields it: its parts, the headers
    [Message-Id] and [Subject] ([None] when missing) and its [uid]. *)
Record fetched : Type := {
  content : message;
  Message_Id : option string;
  Subject_header : option string;
  uid : string
}.

(** The fields of a [MailRequest]. *)
Record MailRequest : Type := {
  message_text : string;
  from_address : string;
  message_id : option string;
  subject : option string
}.

Section Responding.
Variable server : smtp_call → option exn.

(** [self.bot.get_adapter(name)]: the adapter, given by the options its
    [send] reads, or the exception of the call. *)
Variable get_adapter : string → result smtp_config.

(** [def respond(self, message)] of [MailRequest]: what it returns or
    raises, and the calls made on the server. *)
Definition respond (self : MailRequest) (message : string)
  : result value * list smtp_call :=
  match get_adapter "mail" with
  | Raise e => (Raise e, [])
  | Ok adapter =>
      match reply_subject (subject self) with
      | Raise e => (Raise e, [])
      | Ok subject =>
          send server adapter (from_address self) message subject
            (message_id self)
      end
  end.

End Responding.

(** The request made from a mail with subject [cat], and from one without
    subject. *)
Definition about_cat : MailRequest :=
  {| message_text := "show me a cat";
     from_address := "alexander-artemenko@yandex.ru";
     message_id := Some "<1@example.org>";
     subject := Some "cat" |}.

Definition no_subject : MailRequest :=
  {| message_text := "show me a cat";
     from_address := "alexander-artemenko@yandex.ru";
     message_id := Some "<1@example.org>";
     subject := None |}.

(** What the processing of one message does that is seen outside: the
    warning, the call of [self.callback], the call of [imap.delete], the
    record of [logger.exception]. *)
Inductive effect : Type :=
| Warned (full_from : string)
| Called (request : MailRequest)
| Deleted (uid : string)
| Logged (f : failure).

Section Processing.
Variable decode : string → string → result string.
Variable is_space : Ascii.ascii → bool.

(** The sender as the header [From] gives it: the lines that decode the
    header and pick the address, with the failure they end in, if any
    (the [IndexError] of the [[0]] on a header without address is one). *)
Variable full_from : fetched → string + failure.

(** What [self.callback(request, direct=True)] and [imap.delete(message)]
    raise, if they do. *)
Variable callback : MailRequest → option exn.
Variable delete : string → option exn.

(** The [except Exception] clause: the failure is logged and the loop
    goes on, or it leaves the loop. *)
Definition handle (f : failure) (done : list effect)
  : option failure * list effect :=
  if is_caught f then (None, done ++ [Logged f]) else (Some f, done).

(** The body of [for message in imap.fetch_messages()]: the failure that
    leaves the loop, if any, and what was done. *)
Definition process (m : fetched) : option failure * list effect :=
  match full_from m with
  | inr f => handle f []
  | inl sender =>
      match _get_text_from_email decode (content m) with
      | Raise e => handle (Raised e) []
      | Ok None => (None, [Warned sender])
      | Ok (Some text) =>
          match first_line is_space (String.list_ascii_of_string text) with
          | None => handle IndexError []
          | Some line =>
              let request :=
                {| message_text := String.string_of_list_ascii line;
                   from_address := "alexander-artemenko@yandex.ru";
                   message_id := Message_Id m;
                   subject := Subject_header m |} in
              match callback request with
              | Some e => handle (Raised e) [Called request]
              | None =>
                  match delete (uid m) with
                  | Some e =>
                      handle (Raised e) [Called request; Deleted (uid m)]
                  | None => (None, [Called request; Deleted (uid m)])
                  end
              end
          end
      end
  end.

End Processing.



(** A fetched message, and the callback of this repository's [Bot]:
    [on_request] takes no argument [direct]. *)
Definition fetched_alternative : fetched :=
  {| content := alternative; Message_Id := Some "<1@example.org>";
     Subject_header := Some "cat"; uid := "7" |}.

Definition rejecting : MailRequest → option exn :=
  λ _, Some (TypeError "on_request() got an unexpected keyword argument 'direct'").

End Mail.

(** * Properties *)

(** ** Byte strings *)

Module PyFacts.
Import Py.

Lemma startswith_app (p k : string) : startswith (p +:+ k) p = true.
Proof.
  unfold startswith. induction p as [|a p IH]; simpl.
  - by destruct k.
  - destruct (Ascii.ascii_dec a a); [exact IH | congruence].
Qed.

Lemma startswith_inv (x p : string) :
  startswith x p = true → ∃ k, x = p +:+ k.
Proof.
  unfold startswith. revert x. induction p as [|a p IH]; intros x H.
  - by exists x.
  - destruct x as [|b x]; simpl in H; [discriminate|].
    destruct (Ascii.ascii_dec a b) as [->|]; [|discriminate].
    destruct (IH x H) as [k ->]. by exists k.
Qed.

Lemma startswith_iff (x p : string) :
  startswith x p = true ↔ ∃ k, x = p +:+ k.
Proof.
  split; [apply startswith_inv|]. intros [k ->]. apply startswith_app.
Qed.

(** Two strings that start a common string are comparable. *)
Lemma app_eq_startswith (p q k l : string) :
  p +:+ k = q +:+ l → startswith p q = true ∨ startswith q p = true.
Proof.
  unfold startswith. revert q. induction p as [|a p IH]; intros q H.
  - right. by destruct q.
  - destruct q as [|b q]; [by left|]. simpl in H. injection H as -> H.
    simpl. destruct (Ascii.ascii_dec b b); [|congruence].
    destruct (IH q H); auto.
Qed.

Lemma length_app (p k : string) :
  String.length (p +:+ k) = String.length p + String.length k.
Proof. induction p as [|a p IH]; simpl; [done | by rewrite IH]. Qed.

Lemma startswith_false_app (p q k : string) :
  startswith p q = false → startswith q p = false →
  startswith (p +:+ k) q = false.
Proof.
  intros Hpq Hqp. destruct (startswith (p +:+ k) q) eqn:E; [|done].
  apply startswith_inv in E as [l E].
  destruct (app_eq_startswith _ _ _ _ E); congruence.
Qed.

Lemma app_empty_inv (p q : string) : q = p +:+ q → p = "".
Proof.
  intros H. apply (f_equal String.length) in H. rewrite length_app in H.
  destruct p; [done | simpl in H; lia].
Qed.

End PyFacts.

(** ** The namespaced storage *)

Module StorageProps.
Import Py PyFacts Storage.

(** Reads and writes of a view in terms of the shelf it holds. *)
Lemma the_shelf_setitem (self other : Storage) (name : string) (v : value)
  (h : heap) :
  _shelve other = _shelve self →
  the_shelf other (__setitem__ self name v h)
  = <[prefix self +:+ name := v]> (the_shelf self h).
Proof.
  intros E. unfold the_shelf, __setitem__. rewrite E.
  by rewrite lookup_total_insert_eq.
Qed.

Lemma elem_of_shelf_keys (d : gmap string value) (x : string) :
  x ∈ shelf_keys d ↔ is_Some (d !! x).
Proof.
  unfold shelf_keys. rewrite list_elem_of_fmap. split.
  - intros [[k v] [-> H]]. apply elem_of_map_to_list in H. by exists v.
  - intros [v H]. exists (x, v). split; [done|]. by apply elem_of_map_to_list.
Qed.

Lemma elem_of_keys (self : Storage) (h : heap) (x : string) :
  x ∈ keys self h
  ↔ startswith x (prefix self) = true ∧ is_Some (the_shelf self h !! x).
Proof. unfold keys. by rewrite list_elem_of_filter, elem_of_shelf_keys. Qed.

(** [test_storage_nesting]: each namespace lists its own physical key, and
    the root view lists both. *)
Example keys_first : keys first nesting_heap = ["first:blah"].
Proof. vm_compute. reflexivity. Qed.

Example keys_second : keys second nesting_heap = ["second:one"].
Proof. vm_compute. reflexivity. Qed.

Example keys_storage :
  keys storage nesting_heap ≡ₚ ["first:blah"; "second:one"].
Proof. vm_compute. apply Permutation_swap. Qed.

Example getitem_second_blah :
  __getitem__ second "blah" nesting_heap = Raise (KeyError "second:blah").
Proof. vm_compute. reflexivity. Qed.

(** C2, as stated, fails: with the shelf of [test_storage_nesting], the view
    with prefix [first:] lists the physical key [first:blah], not the
    logical key [blah]. *)
Lemma keys_not_stripped : ¬ keys_are_stripped first nesting_heap.
Proof.
  intros H. destruct (H "blah") as [_ Hin].
  assert (Hs : is_Some (the_shelf first nesting_heap !! (prefix first +:+ "blah")))
    by (vm_compute; eauto).
  apply Hin in Hs. rewrite keys_first in Hs.
  apply list_elem_of_singleton in Hs. discriminate.
Qed.

(** C2, amended: [keys()] of a view with prefix [P] lists, each once,
    exactly the physical keys of the shelf that start with [P], that is the
    keys [P + K] that are present, with the prefix left in place. *)
Theorem keys_lists_physical_keys (self : Storage) (h : heap) :
  NoDup (keys self h)
  ∧ (∀ x : string,
       x ∈ keys self h
       ↔ is_Some (the_shelf self h !! x) ∧ ∃ K, x = prefix self +:+ K)
  ∧ (∀ K : string,
       (prefix self +:+ K) ∈ keys self h
       ↔ is_Some (the_shelf self h !! (prefix self +:+ K))).
Proof.
  split; [|split].
  - unfold keys, shelf_keys. apply NoDup_filter, NoDup_fst_map_to_list.
  - intros x. rewrite elem_of_keys, startswith_iff. tauto.
  - intros K. rewrite elem_of_keys, startswith_app. tauto.
Qed.

(** [clear()] relies on it: the listed keys are deleted from the shelf as
    they are. *)
Lemma clear_lookup (self : Storage) (h : heap) (x : string) :
  the_shelf self (clear self h) !! x
  = if startswith x (prefix self) then None else the_shelf self h !! x.
Proof.
  unfold clear, the_shelf at 1. rewrite lookup_total_insert_eq.
  assert (G : ∀ (l : list string) (d : gmap string value),
             foldl (λ d key, delete key d) d l !! x
             = if bool_decide (x ∈ l) then None else d !! x).
  { induction l as [|k l IH]; intros d; simpl; [done|].
    rewrite IH. destruct (decide (x = k)) as [->|Hne].
    - rewrite lookup_delete_eq, (bool_decide_eq_true_2 (k ∈ k :: l));
        [by case_bool_decide | by left].
    - rewrite lookup_delete_ne by done.
      rewrite (bool_decide_ext (x ∈ k :: l) (x ∈ l)); [done|].
      rewrite elem_of_cons. split; [by intros [?|?] | by right]. }
  rewrite G. case_bool_decide as Hin.
  - apply elem_of_keys in Hin as [-> _]. done.
  - destruct (startswith x (prefix self)) eqn:E; [|done].
    destruct (the_shelf self h !! x) eqn:L; [|done].
    exfalso. apply Hin, elem_of_keys. eauto.
Qed.

(** C3, as stated, fails: a sub-namespace of the view with prefix [first:]
    has the prefix [inner:], not [first:inner:]. *)
Lemma with_prefix_does_not_append : ¬ with_prefix_appends first "inner:".
Proof. unfold with_prefix_appends. vm_compute. discriminate. Qed.

(** C3, amended: [with_prefix(Q)] returns a new view over the same shelf
    whose prefix is [Q] itself, whatever the current prefix [P]: repeated
    calls do not compose (the last prefix stands), a write through the new
    view lands at the physical key [Q + name] of the shared shelf, and the
    result is [P] with [Q] appended exactly when [P] is empty, as it is for
    the root view. *)
Theorem with_prefix_replaces (self : Storage) (Q : string) :
  _shelve (with_prefix self Q) = _shelve self
  ∧ prefix (with_prefix self Q) = Q
  ∧ (∀ Q', with_prefix (with_prefix self Q) Q' = with_prefix self Q')
  ∧ (∀ h name v,
       the_shelf self (__setitem__ (with_prefix self Q) name v h)
       = <[Q +:+ name := v]> (the_shelf self h))
  ∧ (with_prefix_appends self Q ↔ prefix self = "").
Proof.
  repeat split; try done.
  - intros h name v. by rewrite the_shelf_setitem.
  - unfold with_prefix_appends, with_prefix, __init__.
    intros E. injection E as E. by apply app_empty_inv in E.
  - unfold with_prefix_appends, with_prefix, __init__. by intros ->.
Qed.

(** C4, as stated, fails: the prefixes [a] and [ab] are distinct, yet the
    key [bc] written under [a] is the physical key [abc], which the view
    with prefix [ab] lists and reads as [c]. *)
Lemma distinct_prefixes_do_not_isolate : ¬ distinct_prefixes_isolate.
Proof.
  intros H.
  destruct (H ∅ storage "a" "ab" "bc" (VStr "minor")) as [Hk _]; [done|].
  apply Hk. vm_compute. left.
Qed.

Example nested_prefix_read :
  get (with_prefix storage "ab") "c"
      (__setitem__ (with_prefix storage "a") "bc" (VStr "minor") ∅)
  = Ok (VStr "minor").
Proof. vm_compute. reflexivity. Qed.

(** C4, amended: when neither prefix starts with the other, a key written
    through one view changes neither [keys()] nor any read of the other
    view, and a second view holding the writer's prefix reads the value and
    lists the key. *)
Theorem incomparable_prefixes_isolate
  (h : heap) (root : Storage) (P1 P2 K : string) (v : value) :
  startswith P1 P2 = false →
  startswith P2 P1 = false →
  let first := with_prefix root P1 in
  let second := with_prefix root P2 in
  let third := with_prefix root P1 in
  let h' := __setitem__ first K v h in
  ((P1 +:+ K) ∉ keys second h')
  ∧ (∀ x, x ∈ keys second h' ↔ x ∈ keys second h)
  ∧ (∀ K', get second K' h' = get second K' h)
  ∧ (∀ K', __getitem__ second K' h' = __getitem__ second K' h)
  ∧ get third K h' = Ok v
  ∧ __getitem__ third K h' = Ok v
  ∧ (P1 +:+ K) ∈ keys third h'.
Proof.
  intros H12 H21 first second third h'.
  assert (Hs : ∀ view : Storage, _shelve view = _shelve first →
            the_shelf view h' = <[P1 +:+ K := v]> (the_shelf first h)).
  { intros view E. unfold h'. by rewrite the_shelf_setitem. }
  assert (Hne : ∀ K', P1 +:+ K ≠ P2 +:+ K').
  { intros K' E. destruct (app_eq_startswith _ _ _ _ E); congruence. }
  assert (Hno : startswith (P1 +:+ K) P2 = false)
    by by apply startswith_false_app.
  repeat split.
  - rewrite elem_of_keys. simpl. intros [E _]. congruence.
  - rewrite !elem_of_keys, Hs by done. simpl. intros [E [w L]].
    split; [done|]. exists w. rewrite lookup_insert_ne in L; [done|].
    intros <-. congruence.
  - rewrite !elem_of_keys, Hs by done. simpl. intros [E [w L]].
    split; [done|]. exists w. rewrite lookup_insert_ne; [done|].
    intros <-. congruence.
  - intros K'. unfold get. rewrite Hs by done. simpl.
    by rewrite lookup_insert_ne.
  - intros K'. unfold __getitem__. rewrite Hs by done. simpl.
    by rewrite lookup_insert_ne.
  - unfold get. rewrite Hs by done. simpl. by rewrite lookup_insert_eq.
  - unfold __getitem__. rewrite Hs by done. simpl. by rewrite lookup_insert_eq.
  - rewrite elem_of_keys, Hs by done. simpl.
    rewrite startswith_app, lookup_insert_eq. eauto.
Qed.

Lemma incomparable_prefixes_isolate_witness :
  startswith "first:" "second:" = false
  ∧ startswith "second:" "first:" = false
  ∧ (("first:" +:+ "blah") ∉
       keys second (__setitem__ first "blah" (VStr "minor") ∅))
  ∧ get first "blah" (__setitem__ first "blah" (VStr "minor") ∅)
    = Ok (VStr "minor").
Proof.
  split; [reflexivity|]. split; [reflexivity|].
  pose proof (incomparable_prefixes_isolate ∅ storage "first:" "second:"
                "blah" (VStr "minor") eq_refl eq_refl) as H.
  simpl in H. destruct H as (H1 & _ & _ & _ & H5 & _). split; assumption.
Defined.

(** C8, as stated, fails for [get]: on the empty shelf it returns [None]
    for the absent key [blah] and raises nothing. *)
Lemma get_does_not_signal_not_found : ¬ reads_signal_not_found.
Proof.
  intros H. destruct (H storage ∅ "blah") as [_ [e He]]; [done|].
  vm_compute in He. discriminate.
Qed.

Example get_conflates_absent_and_none :
  get storage "blah" ∅ = get storage "blah" (__setitem__ storage "blah" VNone ∅).
Proof. vm_compute. reflexivity. Qed.

(** C8, amended: the subscript read [__getitem__] fails with [KeyError]
    exactly on absent keys and returns the stored object, [None] included,
    on present ones, so absence is never taken for a stored [None]; the
    read [get] never raises and returns [None] both for an absent key and
    for a key that holds [None]. *)
Theorem getitem_signals_not_found (self : Storage) (h : heap) (name : string) :
  (__getitem__ self name h = Raise (KeyError (prefix self +:+ name))
   ↔ the_shelf self h !! (prefix self +:+ name) = None)
  ∧ (∀ v, __getitem__ self name h = Ok v
          ↔ the_shelf self h !! (prefix self +:+ name) = Some v)
  ∧ (∀ e, __getitem__ self name h = Raise e
          ↔ e = KeyError (prefix self +:+ name)
            ∧ the_shelf self h !! (prefix self +:+ name) = None)
  ∧ (∀ e, get self name h ≠ Raise e)
  ∧ (get self name h = Ok VNone
     ↔ the_shelf self h !! (prefix self +:+ name) = None
       ∨ the_shelf self h !! (prefix self +:+ name) = Some VNone).
Proof.
  unfold __getitem__, get.
  destruct (the_shelf self h !! (prefix self +:+ name)) as [w|].
  - split; [split; [discriminate | done]|].
    split; [intros v; split; congruence|].
    split; [intros e; split; [discriminate | by intros [_ ?]]|].
    split; [discriminate|].
    split; [intros E; right; congruence | intros [?|E]; congruence].
  - split; [done|].
    split; [intros v; split; discriminate|].
    split; [intros e; split; [by intros [= <-] | by intros [-> _]]|].
    split; [discriminate|].
    split; [by left | done].
Qed.

End StorageProps.

(** ** The capability registry *)

Module RegistryProps.
Import Py Registry.

(** The order of byte strings is a total preorder. *)
Lemma ascii_compare_refl (a : Ascii.ascii) : Ascii.compare a a = Eq.
Proof. unfold Ascii.compare. apply N.compare_refl. Qed.

Lemma ascii_compare_lt_trans (a b c : Ascii.ascii) :
  Ascii.compare a b = Lt → Ascii.compare b c = Lt → Ascii.compare a c = Lt.
Proof.
  unfold Ascii.compare. rewrite !N.compare_lt_iff. apply N.lt_trans.
Qed.

Lemma string_compare_trans (x y z : string) :
  String.compare x y ≠ Gt → String.compare y z ≠ Gt → String.compare x z ≠ Gt.
Proof.
  revert y z. induction x as [|a x IH]; intros [|b y] [|c z]; simpl; try done.
  destruct (Ascii.compare a b) eqn:Eab; [| |done];
    destruct (Ascii.compare b c) eqn:Ebc; try done.
  - apply Ascii.compare_eq_iff in Eab as ->. rewrite Ebc. apply IH.
  - apply Ascii.compare_eq_iff in Eab as ->. by rewrite Ebc.
  - apply Ascii.compare_eq_iff in Ebc as <-. by rewrite Eab.
  - by rewrite (ascii_compare_lt_trans a b c).
Qed.

Lemma str_le_alt (x y : string) : str_le x y ↔ String.compare x y ≠ Gt.
Proof. unfold str_le, String.leb. by destruct (String.compare x y). Qed.

#[global] Instance str_le_trans : Transitive str_le.
Proof. intros x y z. rewrite !str_le_alt. apply string_compare_trans. Qed.

#[global] Instance str_le_total : Total str_le.
Proof. intros x y. apply String.leb_total. Qed.

#[global] Instance str_le_antisymm : AntiSymm eq str_le.
Proof. intros x y. apply String.leb_antisym. Qed.

Section Methods.
Context {B : Type}.
Implicit Types (body : list (method_def B)) (m : method_def B).

(** [route] keeps the name and appends its pattern. *)
Lemma route_name (pattern : string) (f : function B) :
  __name__ (route pattern f) = __name__ f.
Proof. done. Qed.

Lemma decorate_name m : __name__ (decorate m) = name_of m.
Proof.
  unfold decorate, name_of. induction (decorators m) as [|p ps IH]; [done|].
  simpl. exact IH.
Qed.

(** The decorator written last is applied first. *)
Lemma decorate_patterns m :
  default [] (_patterns (decorate m))
  = default [] (_patterns (def m)) ++ rev (decorators m).
Proof.
  unfold decorate. induction (decorators m) as [|p ps IH]; simpl.
  - by rewrite app_nil_r.
  - rewrite app_assoc, <- IH.
    by destruct (_patterns (foldr route (def m) ps)).
Qed.

Lemma class_dict_snoc body m :
  class_dict (body ++ [m])
  = <[name_of m := Function (decorate m)]> (class_dict body).
Proof. unfold class_dict. by rewrite foldl_app. Qed.

Lemma class_dict_lookup_Some body (k : string) (a : attr B) :
  class_dict body !! k = Some a →
  ∃ m, m ∈ body ∧ name_of m = k ∧ a = Function (decorate m).
Proof.
  induction body as [|m body IH] using rev_ind; [done|].
  rewrite class_dict_snoc. destruct (decide (name_of m = k)) as [<-|Hne].
  - rewrite lookup_insert_eq. intros [= <-]. exists m.
    rewrite elem_of_app, list_elem_of_singleton. auto.
  - rewrite lookup_insert_ne by done. intros H.
    destruct (IH H) as (m' & ? & ? & ?). exists m'.
    rewrite elem_of_app. auto.
Qed.

Lemma class_dict_lookup_NoDup body m :
  NoDup (name_of <$> body) → m ∈ body →
  class_dict body !! name_of m = Some (Function (decorate m)).
Proof.
  induction body as [|m' body IH] using rev_ind; [by intros _ ?%elem_of_nil|].
  rewrite fmap_app, class_dict_snoc. simpl.
  intros [Hnd [Hfresh _]]%NoDup_app.
  rewrite elem_of_app, list_elem_of_singleton. intros [Hin| ->].
  - rewrite lookup_insert_ne; [by apply IH|]. intros E.
    apply (Hfresh (name_of m)); [by apply list_elem_of_fmap_2|].
    rewrite E. by left.
  - by rewrite lookup_insert_eq.
Qed.

(** With distinct names, the order of the [def]s leaves no trace in the
    class namespace. *)
Lemma class_dict_Permutation body body' :
  NoDup (name_of <$> body) → body' ≡ₚ body →
  class_dict body' = class_dict body.
Proof.
  intros Hnd Hp. assert (Hnd' : NoDup (name_of <$> body')) by by rewrite Hp.
  apply map_eq. intros k. apply option_eq. intros a. split; intros H.
  - destruct (class_dict_lookup_Some _ _ _ H) as (m & Hin & <- & ->).
    apply class_dict_lookup_NoDup; [done | by rewrite <- Hp].
  - destruct (class_dict_lookup_Some _ _ _ H) as (m & Hin & <- & ->).
    apply class_dict_lookup_NoDup; [done | by rewrite Hp].
Qed.

(** Every method of an instance is stored under its own name. *)
Lemma instantiate_Function body (k : string) (f : function B) :
  instantiate body !! k = Some (Function f) →
  __name__ f = k ∧ ∃ m, m ∈ body ∧ f = decorate m.
Proof.
  unfold instantiate. rewrite !lookup_union_Some_raw.
  intros [H|[_ [H|[_ H]]]].
  - unfold instance_dict in H.
    repeat (rewrite lookup_insert in H; case_decide; [done|]). done.
  - destruct (class_dict_lookup_Some _ _ _ H) as (m & Hin & <- & [= ->]).
    split; [apply decorate_name | eauto].
  - unfold Plugin_dict in H.
    repeat (rewrite lookup_insert in H; case_decide; [done|]). done.
Qed.

Lemma dir_sorted (self : gmap string (attr B)) :
  StronglySorted str_le (dir self).
Proof. apply StronglySorted_merge_sort; apply _. Qed.

Lemma dir_NoDup (self : gmap string (attr B)) : NoDup (dir self).
Proof.
  unfold dir. rewrite merge_sort_Permutation. apply NoDup_fst_map_to_list.
Qed.

Lemma elem_of_dir (self : gmap string (attr B)) (k : string) :
  k ∈ dir self ↔ is_Some (self !! k).
Proof.
  unfold dir. rewrite merge_sort_Permutation, list_elem_of_fmap. split.
  - intros [[k' a] [-> H]]. apply elem_of_map_to_list in H. by exists a.
  - intros [a H]. exists (k, a). split; [done|]. by apply elem_of_map_to_list.
Qed.

Lemma yields_name body (k : string) (pf : string * function B) :
  pf ∈ yields (instantiate body) k → __name__ pf.2 = k.
Proof.
  unfold yields. destruct (instantiate body !! k) as [[f|c]|] eqn:E; simpl.
  - intros [p [-> _]]%list_elem_of_fmap. simpl.
    by apply instantiate_Function in E as [? _].
  - destruct c; by intros ?%elem_of_nil.
  - by intros ?%elem_of_nil.
Qed.

Lemma str_le_refl (k : string) : str_le k k.
Proof. by destruct (str_le_total k k). Qed.

Lemma sorted_app_const (k : string) (l1 l2 : list string) :
  Forall (λ x, x = k) l1 → Forall (str_le k) l2 →
  StronglySorted str_le l2 → StronglySorted str_le (l1 ++ l2).
Proof.
  intros H1 H2 Hs. induction H1 as [|x l1 -> Hl1 IH]; simpl; [done|].
  constructor; [done|]. apply Forall_app. split; [|done].
  eapply Forall_impl; [exact Hl1|]. intros ? ->. apply str_le_refl.
Qed.

Lemma sorted_bind (names : list string)
  (g : string → list (string * function B)) :
  (∀ k pf, pf ∈ g k → __name__ pf.2 = k) →
  StronglySorted str_le names →
  StronglySorted str_le ((λ pf, __name__ pf.2) <$> (names ≫= g)).
Proof.
  intros Hg. induction 1 as [|k names Hs IH Hall]; [constructor|].
  rewrite bind_cons, fmap_app. apply (sorted_app_const k); [| |done].
  - apply Forall_fmap, Forall_forall. intros pf Hin. by apply Hg.
  - apply Forall_fmap, Forall_forall. intros pf Hin.
    apply list_elem_of_bind in Hin as (k' & Hin & Hk').
    simpl. rewrite (Hg _ _ Hin).
    rewrite Forall_forall in Hall. by apply Hall.
Qed.

Lemma filter_all {A} (P : A → Prop) `{!∀ x, Decision (P x)} (l : list A) :
  Forall P l → filter P l = l.
Proof.
  induction 1 as [|x l Hx _ IH]; [done|].
  by rewrite filter_cons_True, IH.
Qed.

Lemma filter_none {A} (P : A → Prop) `{!∀ x, Decision (P x)} (l : list A) :
  Forall (λ x, ¬ P x) l → filter P l = [].
Proof.
  induction 1 as [|x l Hx _ IH]; [done|].
  by rewrite filter_cons_False.
Qed.

Lemma filter_bind_name (names : list string)
  (g : string → list (string * function B)) (k : string) :
  (∀ k' pf, pf ∈ g k' → __name__ pf.2 = k') →
  NoDup names → k ∈ names →
  filter (λ pf, __name__ pf.2 = k) (names ≫= g) = g k.
Proof.
  intros Hg. induction 1 as [|k0 names Hfresh Hnd IH]; [by intros ?%elem_of_nil|].
  rewrite bind_cons, filter_app, elem_of_cons. intros [->|Hin].
  - rewrite filter_all, filter_none, app_nil_r; [done| |].
    + apply Forall_forall. intros pf (k' & Hpf & Hk')%list_elem_of_bind.
      rewrite (Hg _ _ Hpf). by intros ->.
    + apply Forall_forall. intros pf Hpf. by apply Hg.
  - rewrite filter_none, IH; [done..|].
    apply Forall_forall. intros pf Hpf. rewrite (Hg _ _ Hpf). by intros ->.
Qed.

Lemma instantiate_method body m :
  NoDup (name_of <$> body) → m ∈ body →
  (instance_dict : gmap string (attr B)) !! name_of m = None →
  instantiate body !! name_of m = Some (Function (decorate m)).
Proof.
  intros Hnd Hin Hvis. unfold instantiate.
  rewrite lookup_union_r by done.
  apply lookup_union_Some_l. by apply class_dict_lookup_NoDup.
Qed.

(** C5, amended: the pairs come in a fixed order that the order of the
    [def]s does not influence: methods in ascending order of their names
    (the order of [dir]), and the patterns of one method in the order the
    decorators were applied, the one nearest to the [def] first. *)
Theorem get_callbacks_in_name_order body :
  NoDup (name_of <$> body) →
  StronglySorted str_le
    ((λ pf, __name__ pf.2) <$> get_callbacks (instantiate body))
  ∧ (∀ body', body' ≡ₚ body →
       get_callbacks (instantiate body') = get_callbacks (instantiate body))
  ∧ (∀ m, m ∈ body →
       (instance_dict : gmap string (attr B)) !! name_of m = None →
       filter (λ pf, __name__ pf.2 = name_of m)
              (get_callbacks (instantiate body))
       = (λ pattern, (pattern, decorate m))
           <$> (default [] (_patterns (def m)) ++ rev (decorators m))).
Proof.
  intros Hnd. split; [|split].
  - apply sorted_bind; [apply yields_name | apply dir_sorted].
  - intros body' Hp. unfold instantiate.
    by rewrite (class_dict_Permutation body body').
  - intros m Hin Hvis. unfold get_callbacks.
    rewrite filter_bind_name.
    + unfold yields. rewrite instantiate_method by done. simpl.
      by rewrite decorate_patterns.
    + apply yields_name.
    + apply dir_NoDup.
    + apply elem_of_dir. rewrite instantiate_method by done. eauto.
Qed.

End Methods.

(** [TestPlugin]: [find] comes before [show_a_cat], which was declared
    first. *)
Example get_callbacks_TestPlugin :
  (λ pf, (pf.1, __name__ pf.2)) <$> get_callbacks (instantiate TestPlugin)
  = [("find (?P<this>.*)", "find"); ("show me a cat", "show_a_cat")].
Proof. vm_compute. reflexivity. Qed.

(** Two routes on one handler come out bottom-up. *)
Example get_callbacks_TwoRoutes :
  (λ pf, pf.1) <$> get_callbacks (instantiate TwoRoutes) = ["hi"; "hello"].
Proof. vm_compute. reflexivity. Qed.

(** C5, as stated, fails: [TestPlugin] declares [show_a_cat] before [find],
    and [get_callbacks] yields the pair of [find] first. *)
Lemma callbacks_not_in_declaration_order :
  ¬ callbacks_in_declaration_order TestPlugin.
Proof. unfold callbacks_in_declaration_order. vm_compute. discriminate. Qed.

Lemma get_callbacks_in_name_order_witness :
  NoDup (name_of <$> TestPlugin)
  ∧ StronglySorted str_le
      ((λ pf, __name__ pf.2) <$> get_callbacks (instantiate TestPlugin)).
Proof.
  assert (Hnd : NoDup (name_of <$> TestPlugin)).
  { apply (bool_decide_unpack _). vm_compute. exact I. }
  split; [exact Hnd|].
  exact (proj1 (get_callbacks_in_name_order TestPlugin Hnd)).
Defined.

End RegistryProps.

(** ** The dispatch core *)

Module DispatchProps.
Import Py Dispatch.

Section Dispatching.
Context {W : Type}.
Variable re_match : string → string → result (option groupdict).
Implicit Types (self : Bot W) (request : Request W) (w : W)
  (bindings before after : list (string * callback W)).

(** Bindings that do not match are passed over. *)
Lemma scan_skip request index before bindings w :
  Forall (no_match re_match (message request)) before →
  scan re_match request index (before ++ bindings) w
  = scan re_match request (index + length before) bindings w.
Proof.
  intros H. revert index. induction H as [|[p cb] before Hp _ IH]; intros index.
  - simpl. by rewrite Nat.add_0_r.
  - simpl. unfold no_match in Hp. simpl in Hp. rewrite Hp, IH.
    f_equal. lia.
Qed.

(** The first binding that matches is the one whose handler is called. *)
Lemma scan_match request index pattern (cb : callback W) after groups w :
  re_match pattern (message request) = Ok (Some groups) →
  scan re_match request index ((pattern, cb) :: after) w
  = (checked (cb request groups w).1, (cb request groups w).2,
     [Called index groups]).
Proof.
  intros H. simpl. rewrite H.
  by destruct (cb request groups w) as [[[]|] w'].
Qed.

Lemma scan_unknown request index w :
  scan re_match request index [] w
  = (match (respond request (unknown_command (message request)) w).1 with
     | Ok _ => Ok VNone
     | Raise e => Raise e
     end,
     (respond request (unknown_command (message request)) w).2,
     [Responded (unknown_command (message request))]).
Proof.
  simpl.
  by destruct (respond request (unknown_command (message request)) w) as [[] w'].
Qed.

(** One run of the loop makes at most one call, to a handler or to
    [respond]. *)
Lemma scan_calls request index bindings w :
  length (scan re_match request index bindings w).2 ≤ 1.
Proof.
  revert index. induction bindings as [|[p cb] bindings IH]; intros index.
  - rewrite scan_unknown. simpl. lia.
  - simpl. destruct (re_match p (message request)) as [[groups|]|e]; simpl.
    + destruct (cb request groups w) as [[[]|] w']; simpl; lia.
    + apply IH.
    + lia.
Qed.

Lemma on_request_scan self request w :
  on_request re_match self (Message request) w
  = {| returned := (scan re_match request 0 (patterns self) w).1.1;
       bot := self;
       world := (scan re_match request 0 (patterns self) w).1.2;
       calls := (scan re_match request 0 (patterns self) w).2 |}.
Proof.
  unfold on_request.
  by destruct (scan re_match request 0 (patterns self) w) as [[r w'] cs].
Qed.

(** C1: for a request that is not the exit signal, the bindings are tried
    in registration order with the matcher anchored at the start of the
    message text; the handler called is exactly that of the first binding
    whose pattern matches, with the named groups of that match, whatever
    bindings follow it; and no dispatch calls more than one handler. *)
Theorem on_request_first_match self request w before pattern
  (cb : callback W) after groups :
  patterns self = before ++ (pattern, cb) :: after →
  Forall (no_match re_match (message request)) before →
  re_match pattern (message request) = Ok (Some groups) →
  let out := on_request re_match self (Message request) w in
  calls out = [Called (length before) groups]
  ∧ returned out = checked (cb request groups w).1
  ∧ world out = (cb request groups w).2
  ∧ bot out = self
  ∧ (∀ self' incoming w',
       length (handler_calls (calls (on_request re_match self' incoming w')))
       ≤ 1).
Proof.
  intros Hp Hbefore Hm out. unfold out.
  rewrite on_request_scan, Hp, scan_skip, (scan_match _ _ _ _ _ groups)
    by done.
  simpl. repeat split; try done.
  intros self' [|request'] w'; [simpl; lia|].
  rewrite on_request_scan. simpl.
  etransitivity; [apply length_filter | apply scan_calls].
Qed.

(** C6: when the handler called by dispatch returns anything but [None],
    [on_request] raises [RuntimeError] to its caller; the handler has run
    once, nothing is called after it, and what it did stays done. *)
Theorem on_request_invalid_handler self request w before pattern
  (cb : callback W) after groups (v : value) (w' : W) :
  patterns self = before ++ (pattern, cb) :: after →
  Forall (no_match re_match (message request)) before →
  re_match pattern (message request) = Ok (Some groups) →
  cb request groups w = (Ok v, w') →
  v ≠ VNone →
  let out := on_request re_match self (Message request) w in
  returned out = Raise (RuntimeError should_not_return)
  ∧ calls out = [Called (length before) groups]
  ∧ world out = w'
  ∧ bot out = self.
Proof.
  intros Hp Hbefore Hm Hcb Hv out. unfold out.
  rewrite on_request_scan, Hp, scan_skip, (scan_match _ _ _ _ _ groups)
    by done.
  rewrite Hcb. simpl. by destruct v.
Qed.

(** C7, amended: when no binding matches the message, [on_request]
    calls no handler and calls [request.respond] once, with the text
    [I don't know command], the message between double quotes, and a full
    stop.  It raises no error of its own: it returns [None] whenever
    [respond] returns, and what [respond] raises goes to the caller
    unchanged; the bot is left as it was. *)
Theorem on_request_unknown_command self request w :
  Forall (no_match re_match (message request)) (patterns self) →
  let out := on_request re_match self (Message request) w in
  let text :=
    "I don't know command "
    +:+ String (Ascii.ascii_of_nat 34)
          (message request +:+ String (Ascii.ascii_of_nat 34) ".") in
  calls out = [Responded text]
  ∧ handler_calls (calls out) = []
  ∧ world out = (respond request text w).2
  ∧ returned out = match (respond request text w).1 with
                   | Ok _ => Ok VNone
                   | Raise e => Raise e
                   end
  ∧ bot out = self.
Proof.
  intros Hno out text. unfold out.
  rewrite on_request_scan.
  rewrite <- (app_nil_r (patterns self)), scan_skip, scan_unknown by done.
  change (unknown_command (message request)) with text.
  cbn [returned calls world bot fst snd]. repeat split; done.
Qed.

(** The exit signal only sets the flag. *)
Lemma on_request_EXIT self w :
  on_request re_match self EXIT w
  = {| returned := Ok VNone;
       bot := {| patterns := patterns self; exiting := true |};
       world := w;
       calls := [] |}.
Proof. done. Qed.

End Dispatching.

(** The example matcher is anchored at the start: a plain pattern matches
    exactly the texts that start with it, whatever follows. *)
Lemma plain_match_anchored (pattern text : string) :
  all_plain pattern = true →
  plain_match pattern text
  = Ok (if startswith text pattern then Some [] else None).
Proof.
  intros H. unfold plain_match.
  assert (E : drop_caret pattern = pattern).
  { destruct pattern as [|c rest]; [done|]. unfold drop_caret. simpl.
    case_bool_decide as Hc; [|done]. subst c. done. }
  by rewrite E, H.
Qed.

Lemma plain_match_trailing (pattern rest : string) :
  all_plain pattern = true →
  plain_match pattern (pattern +:+ rest) = Ok (Some []).
Proof.
  intros H. by rewrite plain_match_anchored, PyFacts.startswith_app.
Qed.

(** The scenario of the test suite. *)
Example show_me_a_cat :
  world (on_request plain_match test_bot (Message (TestRequest "show me a cat")) [])
  = ["the Cat"].
Proof. vm_compute. reflexivity. Qed.

Example find_Umputun :
  world (on_request plain_match test_bot (Message (TestRequest "find Umputun")) [])
  = ["I found Umputun"].
Proof. vm_compute. reflexivity. Qed.

Example unknown_thing :
  world (on_request plain_match test_bot (Message (TestRequest "unknown thing")) [])
  = [unknown_command "unknown thing"].
Proof. vm_compute. reflexivity. Qed.

(** The match is anchored at the start and need not reach the end. *)
Example trailing_text :
  world (on_request plain_match test_bot
           (Message (TestRequest "show me a cat, please")) [])
  = ["the Cat"].
Proof. vm_compute. reflexivity. Qed.

Example leading_text :
  world (on_request plain_match test_bot
           (Message (TestRequest "please show me a cat")) [])
  = [unknown_command "please show me a cat"].
Proof. vm_compute. reflexivity. Qed.

(** Two overlapping bindings, in both orders: the first registered wins. *)
Example overlap_first :
  world (on_request plain_match overlap_bot
           (Message (TestRequest "show me a cat")) [])
  = ["a show"].
Proof. vm_compute. reflexivity. Qed.

Example overlap_swapped :
  world (on_request plain_match overlap_bot_swapped
           (Message (TestRequest "show me a cat")) [])
  = ["the Cat"].
Proof. vm_compute. reflexivity. Qed.

Lemma on_request_first_match_witness :
  patterns overlap_bot = [] ++ ("show me", show) :: [("show me a cat", show_a_cat)]
  ∧ Forall (no_match plain_match "show me a cat") ([] : list (string * callback (list string)))
  ∧ plain_match "show me" "show me a cat" = Ok (Some [])
  ∧ calls (on_request plain_match overlap_bot
             (Message (TestRequest "show me a cat")) [])
    = [Called 0 []].
Proof.
  split; [reflexivity|]. split; [constructor|]. split; [reflexivity|].
  exact (proj1 (on_request_first_match plain_match overlap_bot
                  (TestRequest "show me a cat") [] [] "show me" show
                  [("show me a cat", show_a_cat)] [] eq_refl
                  (Forall_nil_2 _) eq_refl)).
Defined.

Lemma on_request_invalid_handler_witness :
  patterns bad_bot = [] ++ ("^do$", do) :: []
  ∧ plain_match "^do$" "do" = Ok (Some [])
  ∧ do (TestRequest "do") [] [] = (Ok (VStr "Hello world"), [])
  ∧ VStr "Hello world" ≠ VNone
  ∧ returned (on_request plain_match bad_bot (Message (TestRequest "do")) [])
    = Raise (RuntimeError should_not_return).
Proof.
  split; [reflexivity|]. split; [reflexivity|]. split; [reflexivity|].
  split; [discriminate|].
  exact (proj1 (on_request_invalid_handler plain_match bad_bot
                  (TestRequest "do") [] [] "^do$" do [] []
                  (VStr "Hello world") [] eq_refl (Forall_nil_2 _) eq_refl
                  eq_refl ltac:(discriminate))).
Defined.

Lemma on_request_unknown_command_witness :
  Forall (no_match plain_match "some command") (patterns test_bot)
  ∧ calls (on_request plain_match test_bot
             (Message (TestRequest "some command")) [])
    = [Responded ("I don't know command "
                  +:+ String (Ascii.ascii_of_nat 34)
                        ("some command"
                         +:+ String (Ascii.ascii_of_nat 34) "."))]
  ∧ returned (on_request plain_match test_bot
                (Message (TestRequest "some command")) [])
    = Ok VNone.
Proof.
  assert (H : Forall (no_match plain_match "some command") (patterns test_bot)).
  { repeat constructor. }
  destruct (on_request_unknown_command plain_match test_bot
              (TestRequest "some command") [] H) as (Hc & _ & _ & Hr & _).
  split; [exact H|]. split; [exact Hc | exact Hr].
Defined.

(** C7 as the specification has it: the request of the base class is
    answered with an error, that of [Request.respond]. *)
Lemma unknown_command_can_raise :
  Forall (no_match plain_match "some command") (patterns test_bot)
  ∧ returned (on_request plain_match test_bot
                (Message (BaseRequest.base_Request "some command")) [])
    = Raise (NotImplementedError BaseRequest.not_implemented)
  ∧ ¬ unknown_command_raises_no_error (W:=list string) plain_match.
Proof.
  assert (H : Forall (no_match plain_match "some command") (patterns test_bot)).
  { repeat constructor. }
  split; [exact H|]. split; [reflexivity|]. intros Hspec.
  destruct (Hspec test_bot (BaseRequest.base_Request "some command") [] H)
    as (_ & Hraise & _).
  discriminate Hraise.
Qed.

End DispatchProps.

(** ** The worker lifecycle *)

Module WorkerProps.
Import Py Worker.

(** *** [start_worker] *)

Lemma has_live_worker_start (interval : Z) (s : state) :
  has_live_worker (start_worker interval s) = true.
Proof.
  unfold start_worker. destruct (has_live_worker s) eqn:E; [done|].
  unfold has_live_worker, is_alive. simpl.
  by rewrite lookup_app_r, Nat.sub_diag.
Qed.

Lemma active_loops_spawn (interval : Z) (s : state) :
  has_live_worker s = false →
  active_loops (start_worker interval s)
  = active_loops s ++ [new_thread interval s].
Proof.
  intros E. unfold start_worker. rewrite E. unfold active_loops. simpl.
  rewrite filter_app. f_equal. by rewrite filter_cons_True.
Qed.

Lemma live_worker_is_active (s : state) :
  well_formed s → has_live_worker s = true → active_loops s ≠ [].
Proof.
  unfold has_live_worker, is_alive, active_loops. intros Hwf Hlive Hnone.
  destruct (_thread (self s)) as [t|] eqn:Et; [|done].
  destruct (threads s !! t) as [th|] eqn:Eth; [|done].
  assert (Hin : th ∈ filter
                  (λ th, target th = ident (self s) ∧ alive th = true)
                  (threads s)).
  { apply list_elem_of_filter. split; [eauto|].
    by apply list_elem_of_lookup_2 in Eth. }
  rewrite Hnone in Hin. by apply elem_of_nil in Hin.
Qed.

Lemma well_formed_start (interval : Z) (s : state) :
  well_formed s → well_formed (start_worker interval s).
Proof.
  intros Hwf. unfold start_worker.
  destruct (has_live_worker s); [done|].
  intros t th [= <-]. simpl.
  rewrite lookup_app_r, Nat.sub_diag by done. by intros [= <-].
Qed.

(** C10: [start_worker] with a live worker changes nothing; without one
    it starts exactly one new thread and records it, so that the next
    call finds it alive.  Hence a second call is a no-op, and two calls on
    a plugin with no running loop leave exactly one. *)
Theorem start_worker_idempotent (interval interval' : Z) (s : state) :
  well_formed s →
  let s1 := start_worker interval s in
  let s2 := start_worker interval' s1 in
  s2 = s1
  ∧ has_live_worker s1 = true
  ∧ (if has_live_worker s then s1 = s
     else threads s1 = threads s ++ [new_thread interval s]
          ∧ _thread (self s1) = Some (length (threads s))
          ∧ active_loops s1 = active_loops s ++ [new_thread interval s])
  ∧ (active_loops s = [] →
     length (active_loops s1) = 1 ∧ length (active_loops s2) = 1)
  ∧ well_formed s1.
Proof.
  intros Hwf s1 s2.
  assert (H1 : has_live_worker s1 = true) by apply has_live_worker_start.
  assert (H2 : s2 = s1) by (unfold s2, start_worker; by rewrite H1).
  split; [done|]. split; [done|]. split; [|split].
  - destruct (has_live_worker s) eqn:E.
    + unfold s1, start_worker. by rewrite E.
    + split; [|split].
      * unfold s1, start_worker. by rewrite E.
      * unfold s1, start_worker. by rewrite E.
      * by apply active_loops_spawn.
  - intros Hnone. rewrite H2.
    destruct (has_live_worker s) eqn:E.
    + by destruct (live_worker_is_active s).
    + unfold s1. rewrite active_loops_spawn, Hnone by done. done.
  - by apply well_formed_start.
Qed.

Lemma start_worker_idempotent_witness :
  well_formed fresh_plugin
  ∧ start_worker 30 (start_worker 60 fresh_plugin) = start_worker 60 fresh_plugin
  ∧ length (active_loops (start_worker 30 (start_worker 60 fresh_plugin))) = 1.
Proof.
  assert (Hwf : well_formed fresh_plugin) by (intros t th; discriminate).
  pose proof (start_worker_idempotent 60 30 fresh_plugin Hwf) as H.
  simpl in H. destruct H as (H1 & _ & _ & H4 & _).
  split; [exact Hwf|]. split; [exact H1|]. exact (proj2 (H4 eq_refl)).
Defined.

(** *** [_worker] *)

Section Looping.
Context {W : Type}.
Variable do_job : W → result value * W.
Variable event_is_set : nat → bool.
Variable interval : Z.

#[local] Abbreviation loop := (Worker.loop do_job event_is_set interval).

(** While the countdown is positive the loop only sleeps. *)
Lemma loop_countdown (n fuel tick : nat) (countdown : Z) (w : W) :
  countdown = Z.of_nat n →
  (∀ k, tick ≤ k < tick + n → event_is_set k = false) →
  loop (n + fuel) tick countdown w = loop fuel (tick + n) 0%Z w.
Proof.
  revert tick countdown. induction n as [|n IH]; intros tick countdown -> Hev.
  - simpl. by rewrite Nat.add_0_r.
  - cbn [Nat.add Worker.loop]. rewrite Hev by lia.
    rewrite bool_decide_eq_false_2 by lia.
    rewrite (IH (S tick) (Z.of_nat (S n) - 1)%Z); [f_equal; lia | lia |].
    intros k Hk. apply Hev. lia.
Qed.

(** An iteration with the countdown at zero calls [do_job]. *)
Lemma loop_calls_job (fuel tick : nat) (w : W) :
  event_is_set tick = false →
  ∃ st w' log,
    loop (S fuel) tick 0%Z w = (st, w', Job tick (do_job w).1 :: log).
Proof.
  intros Hev. cbn [Worker.loop]. rewrite Hev. simpl.
  destruct (do_job w) as [[v|e] w1]; simpl.
  - destruct (Worker.loop _ _ _ fuel (S tick) interval w1) as [[st w2] log].
    eauto.
  - destruct (is_Exception e); [|eauto].
    destruct (Worker.loop _ _ _ fuel (S tick) interval w1) as [[st w2] log].
    eauto.
Qed.

(** After an outcome that is caught, the loop goes on from the same
    state, whatever the outcome was. *)
Lemma loop_caught (fuel tick : nat) (w w1 : W) (r : result value) :
  event_is_set tick = false →
  do_job w = (r, w1) →
  caught r = true →
  loop (S fuel) tick 0%Z w
  = ((loop fuel (S tick) interval w1).1.1,
     (loop fuel (S tick) interval w1).1.2,
     Job tick r :: logged tick r ++ (loop fuel (S tick) interval w1).2).
Proof.
  intros Hev Hjob Hr. cbn [Worker.loop]. rewrite Hev, Hjob. simpl.
  destruct r as [v|e]; simpl in *.
  - by destruct (Worker.loop _ _ _ fuel (S tick) interval w1) as [[st w2] log].
  - rewrite Hr.
    by destruct (Worker.loop _ _ _ fuel (S tick) interval w1) as [[st w2] log].
Qed.

(** C9, amended: an exception of class [Exception] raised by [do_job] is
    caught and logged and does not end the loop: the loop goes on from the
    state [do_job] left exactly as after a call that returned, and, the
    interval not being negative and the event not being set, calls
    [do_job] again [interval] sleeping iterations later. *)
Theorem job_failure_does_not_stop_loop
  (fuel tick : nat) (w w1 : W) (r : result value) :
  do_job w = (r, w1) →
  caught r = true →
  (0 ≤ interval)%Z →
  (∀ k, tick ≤ k ≤ tick + 1 + Z.to_nat interval → event_is_set k = false) →
  ∃ st w2 log,
    loop (S (Z.to_nat interval) + S fuel) (S tick) interval w1 = (st, w2, log)
    ∧ loop (S (S (Z.to_nat interval) + S fuel)) tick 0%Z w
      = (st, w2, Job tick r :: logged tick r ++ log)
    ∧ ∃ log',
        log = Job (tick + 1 + Z.to_nat interval) (do_job w1).1 :: log'.
Proof.
  intros Hjob Hr Hi Hev.
  destruct (loop (S (Z.to_nat interval) + S fuel) (S tick) interval w1)
    as [[st w2] log] eqn:E.
  exists st, w2, log. split; [done|]. split.
  - rewrite (loop_caught _ _ _ w1 r), E; [done| |done..].
    apply Hev. lia.
  - revert E. replace (S (Z.to_nat interval) + S fuel)
      with (Z.to_nat interval + S (S fuel)) by lia.
    rewrite loop_countdown; [|lia|intros k Hk; apply Hev; lia].
    destruct (loop_calls_job (S fuel) (S tick + Z.to_nat interval) w1)
      as (st' & w' & log' & E'); [apply Hev; lia|].
    rewrite E'. intros [= <- <- <-]. exists log'. do 2 f_equal. lia.
Qed.

End Looping.

(** C9, as stated, fails: [SystemExit] raised by [do_job] is not caught
    by [except Exception]; it is not logged and ends the loop. *)
Lemma system_exit_is_not_caught :
  ¬ every_exception_is_caught exiting_job never_set 60.
Proof.
  intros H. destruct (H 0 0 0 1 (SystemExit 0) eq_refl eq_refl)
    as (st & w2 & log & E & _).
  vm_compute in E. discriminate.
Qed.

Example system_exit_ends_the_loop :
  _worker exiting_job None None never_set 60 100 0
  = (Died (SystemExit 0), 1, [Job 0 (Raise (SystemExit 0))]).
Proof. vm_compute. reflexivity. Qed.

(** The inherited [do_job] fails at every call, and is called again
    every [interval + 1] iterations. *)
Example inherited_do_job_ticks :
  (_worker inherited_do_job None None never_set 2 7 0).2
  = [Job 0 (inherited_do_job 0).1; Logged 0 (TypeError "'NotImplementedType' object is not callable");
     Job 3 (inherited_do_job 0).1; Logged 3 (TypeError "'NotImplementedType' object is not callable");
     Job 6 (inherited_do_job 0).1; Logged 6 (TypeError "'NotImplementedType' object is not callable")].
Proof. vm_compute. reflexivity. Qed.

Lemma job_failure_does_not_stop_loop_witness :
  inherited_do_job 0 = ((inherited_do_job 0).1, 1)
  ∧ caught (inherited_do_job 0).1 = true
  ∧ (0 ≤ 60)%Z
  ∧ ∃ st w2 log,
      loop inherited_do_job never_set 60 (S (S (Z.to_nat 60) + 1)) 0 0%Z 0
      = (st, w2,
         Job 0 (inherited_do_job 0).1
           :: logged 0 (inherited_do_job 0).1
           ++ Job 61 (inherited_do_job 1).1 :: log).
Proof.
  split; [reflexivity|]. split; [reflexivity|]. split; [lia|].
  destruct (job_failure_does_not_stop_loop inherited_do_job never_set 60
              0 0 0 1 (inherited_do_job 0).1 eq_refl eq_refl
              ltac:(lia) (λ _ _, eq_refl))
    as (st & w2 & log & _ & E & log' & ->).
  exists st, w2, log'. exact E.
Defined.

End WorkerProps.

(** ** More on the namespaced storage *)

Module StorageMore.
Import Py PyFacts Storage StorageProps.

Lemma str_app_assoc (p k n : string) : (p +:+ k) +:+ n = p +:+ (k +:+ n).
Proof.
  induction p as [|a p IH]; [done|].
  change (String a ((p +:+ k) +:+ n) = String a (p +:+ (k +:+ n))).
  by f_equal.
Qed.

(** X1: a value written through a view is read back through it, by both
    reads, and its physical key is listed; a second write to the same
    name replaces the first; every other physical key, of this shelf or
    of another, reads as before. *)
Theorem setitem_then_read (self : Storage) (name : string) (v : value)
  (h : heap) :
  let h' := __setitem__ self name v h in
  __getitem__ self name h' = Ok v
  ∧ get self name h' = Ok v
  ∧ (prefix self +:+ name) ∈ keys self h'
  ∧ (∀ v0, __setitem__ self name v (__setitem__ self name v0 h) = h')
  ∧ (∀ other name',
       _shelve other ≠ _shelve self
       ∨ prefix other +:+ name' ≠ prefix self +:+ name →
       __getitem__ other name' h' = __getitem__ other name' h
       ∧ get other name' h' = get other name' h).
Proof.
  intros h'. unfold h'.
  split; [|split; [|split; [|split]]].
  - unfold __getitem__. by rewrite the_shelf_setitem, lookup_insert_eq.
  - unfold get. by rewrite the_shelf_setitem, lookup_insert_eq.
  - rewrite elem_of_keys, startswith_app, the_shelf_setitem by done.
    rewrite lookup_insert_eq. eauto.
  - intros v0. unfold __setitem__, the_shelf.
    by rewrite lookup_total_insert_eq, !insert_insert_eq.
  - intros other name' Hne. unfold __getitem__, get.
    destruct (decide (_shelve other = _shelve self)) as [E|E].
    + rewrite the_shelf_setitem by done.
      destruct Hne as [?|Hne]; [done|].
      rewrite lookup_insert_ne by done.
      unfold the_shelf. by rewrite E.
    + unfold the_shelf, __setitem__.
      by rewrite lookup_total_insert_ne.
Qed.

(** X2: [clear()] leaves the view without keys, and touches nothing
    outside its prefix: a view of the same shelf whose prefix neither
    starts with nor is started by the cleared one lists and reads what it
    did, and other shelves are unchanged. *)
Theorem clear_spares_siblings (self other : Storage) (h : heap) :
  _shelve other = _shelve self →
  startswith (prefix other) (prefix self) = false →
  startswith (prefix self) (prefix other) = false →
  keys self (clear self h) = []
  ∧ (∀ x, x ∈ keys other (clear self h) ↔ x ∈ keys other h)
  ∧ (∀ name, __getitem__ other name (clear self h) = __getitem__ other name h)
  ∧ (∀ name, get other name (clear self h) = get other name h)
  ∧ (∀ l, l ≠ _shelve self → clear self h !!! l = h !!! l).
Proof.
  intros E H1 H2.
  assert (Hs : ∀ x, the_shelf other (clear self h) !! x
                    = the_shelf self (clear self h) !! x)
    by (intros x; unfold the_shelf; by rewrite E).
  assert (Hs0 : ∀ x, the_shelf other h !! x = the_shelf self h !! x)
    by (intros x; unfold the_shelf; by rewrite E).
  assert (Hkeep : ∀ name,
            startswith (prefix other +:+ name) (prefix self) = false)
    by (intros name; by apply startswith_false_app).
  split; [|split; [|split; [|split]]].
  - apply elem_of_nil_inv. intros x [Hx [w Hw]]%elem_of_keys.
    rewrite clear_lookup, Hx in Hw. done.
  - intros x. rewrite !elem_of_keys, Hs, Hs0, clear_lookup.
    split; intros [Hx Hw]; (split; [done|]).
    + by destruct (startswith x (prefix self)); [destruct Hw|].
    + apply startswith_inv in Hx as [k ->]. by rewrite Hkeep.
  - intros name. unfold __getitem__. by rewrite Hs, Hs0, clear_lookup, Hkeep.
  - intros name. unfold get. by rewrite Hs, Hs0, clear_lookup, Hkeep.
  - intros l Hl. unfold clear. by rewrite lookup_total_insert_ne.
Qed.

Lemma clear_spares_siblings_witness :
  _shelve second = _shelve first
  ∧ startswith (prefix second) (prefix first) = false
  ∧ startswith (prefix first) (prefix second) = false
  ∧ keys first (clear first nesting_heap) = []
  ∧ __getitem__ second "one" (clear first nesting_heap)
    = __getitem__ second "one" nesting_heap.
Proof.
  split; [reflexivity|]. split; [reflexivity|]. split; [reflexivity|].
  destruct (clear_spares_siblings first second nesting_heap
              eq_refl eq_refl eq_refl) as (H1 & _ & H3 & _).
  split; [exact H1 | exact (H3 "one")].
Defined.

(** X3: [clear()] through a view also removes every key of the views of
    the same shelf whose prefix starts with the cleared prefix; through
    the root view, whose prefix is empty, it removes every key. *)
Theorem clear_wipes_nested_namespaces (self other : Storage) (h : heap) :
  _shelve other = _shelve self →
  startswith (prefix other) (prefix self) = true →
  keys other (clear self h) = []
  ∧ (∀ name, __getitem__ other name (clear self h)
             = Raise (KeyError (prefix other +:+ name)))
  ∧ (∀ name, get other name (clear self h) = Ok VNone).
Proof.
  intros E Hp.
  assert (Hs : ∀ x, the_shelf other (clear self h) !! x
                    = the_shelf self (clear self h) !! x)
    by (intros x; unfold the_shelf; by rewrite E).
  assert (Hgone : ∀ name,
            the_shelf other (clear self h) !! (prefix other +:+ name) = None).
  { intros name. rewrite Hs, clear_lookup.
    apply startswith_inv in Hp as [k ->].
    by rewrite str_app_assoc, startswith_app. }
  split; [|split].
  - apply elem_of_nil_inv. intros x [Hx [w Hw]]%elem_of_keys.
    apply startswith_inv in Hx as [k ->]. by rewrite Hgone in Hw.
  - intros name. unfold __getitem__. by rewrite Hgone.
  - intros name. unfold get. by rewrite Hgone.
Qed.

Lemma clear_wipes_nested_namespaces_witness :
  _shelve first = _shelve storage
  ∧ startswith (prefix first) (prefix storage) = true
  ∧ keys first (clear storage nesting_heap) = [].
Proof.
  split; [reflexivity|]. split; [reflexivity|].
  exact (proj1 (clear_wipes_nested_namespaces storage first nesting_heap
                  eq_refl eq_refl)).
Defined.

End StorageMore.

(** ** More on the capability registry *)

Module RegistryMore.
Import Py Registry RegistryProps RegistryCases.

Section MoreMethods.
Context {B : Type}.
Implicit Types (body before after : list (method_def B)) (m : method_def B).
Implicit Types (mro : list (list (method_def B))).

(** The last [def] of a name is the one the class keeps. *)
Lemma class_dict_last before m after :
  name_of m ∉ name_of <$> after →
  class_dict (before ++ m :: after) !! name_of m
  = Some (Function (decorate m)).
Proof.
  induction after as [|m' after IH] using rev_ind; intros Hnot.
  - change (before ++ [m]) with (before ++ [m]).
    by rewrite class_dict_snoc, lookup_insert_eq.
  - replace (before ++ m :: after ++ [m'])
      with ((before ++ m :: after) ++ [m']) by by rewrite <- app_assoc.
    rewrite class_dict_snoc. rewrite fmap_app, elem_of_app in Hnot.
    rewrite lookup_insert_ne.
    + apply IH. tauto.
    + intros E. apply Hnot. right. rewrite <- E. simpl. by left.
Qed.

Lemma class_dict_lookup_None body (k : string) :
  class_dict body !! k = None ↔ k ∉ name_of <$> body.
Proof.
  induction body as [|m body IH] using rev_ind.
  - split; [by intros _ ?%elem_of_nil | done].
  - rewrite class_dict_snoc, fmap_app, elem_of_app, lookup_insert_None, IH.
    simpl. rewrite list_elem_of_singleton. split.
    + intros [H1 H2] [H|H]; [done | by subst].
    + intros H. split; [tauto|]. intros E. apply H. by right.
Qed.

(** What a class binds to a name is the last [def] of that name. *)
Lemma class_dict_lookup_last body (k : string) (a : attr B) :
  class_dict body !! k = Some a ↔
  ∃ front m back, body = front ++ m :: back ∧ name_of m = k
                  ∧ (k ∉ name_of <$> back) ∧ a = Function (decorate m).
Proof.
  split.
  - induction body as [|m body IH] using rev_ind; [done|].
    rewrite class_dict_snoc. destruct (decide (name_of m = k)) as [<-|Hne].
    + rewrite lookup_insert_eq. intros [= <-]. exists body, m, [].
      split; [done|]. split; [done|]. split; [by intros ?%elem_of_nil | done].
    + rewrite lookup_insert_ne by done. intros H.
      destruct (IH H) as (front & m' & back & -> & Hk & Hback & ->).
      exists front, m', (back ++ [m]). split; [by rewrite <- app_assoc|].
      split; [done|]. split; [|done].
      rewrite fmap_app, elem_of_app. simpl. rewrite list_elem_of_singleton.
      intros [?|?]; [done | by subst].
  - intros (front & m & back & -> & <- & Hback & ->).
    by apply class_dict_last.
Qed.

Lemma Plugin_dict_no_Function (k : string) (f : function B) :
  (Plugin_dict : gmap string (attr B)) !! k ≠ Some (Function f).
Proof.
  unfold Plugin_dict.
  repeat (rewrite lookup_insert; case_decide; [done|]). done.
Qed.

Lemma instance_dict_lookup (k : string) :
  (instance_dict : gmap string (attr B)) !! k
  = if decide (k = "bot") then Some (Object false)
    else if decide (k = "storage") then Some (Object false) else None.
Proof.
  unfold instance_dict.
  repeat (rewrite lookup_insert; repeat case_decide; try done; subst; try done).
Qed.

(** A method comes from the first class of the chain that binds its
    name. *)
Lemma class_chain_lookup mro (k : string) (f : function B) :
  class_chain mro !! k = Some (Function f) ↔
  ∃ derived body bases,
    mro = derived ++ body :: bases
    ∧ Forall (λ b, class_dict b !! k = None) derived
    ∧ class_dict body !! k = Some (Function f).
Proof.
  induction mro as [|body mro IH]; simpl.
  - split; [by intros ?%Plugin_dict_no_Function|].
    intros (derived & ? & ? & E & _). by destruct derived.
  - rewrite lookup_union_Some_raw, IH. split.
    + intros [H|[Hnone (derived & body' & bases & -> & Hb & H)]].
      * exists [], body, mro. by repeat split.
      * exists (body :: derived), body', bases.
        split; [done|]. split; [by constructor | done].
    + intros (derived & body' & bases & E & Hb & H).
      destruct derived as [|b derived]; simplify_eq/=.
      * by left.
      * apply Forall_cons in Hb as [Hb1 Hb]. right. split; [done|].
        by exists derived, body', bases.
Qed.

(** What [get_callbacks] yields, for any instance. *)
Lemma elem_of_get_callbacks (self : gmap string (attr B))
  (pf : string * function B) :
  pf ∈ get_callbacks self ↔
  ∃ k, self !! k = Some (Function pf.2) ∧ pf.1 ∈ default [] (_patterns pf.2).
Proof.
  unfold get_callbacks. rewrite list_elem_of_bind. split.
  - intros (k & Hpf & _). exists k. unfold yields in Hpf.
    destruct (self !! k) as [[f|c]|]; simpl in Hpf.
    + by apply list_elem_of_fmap in Hpf as (p & -> & Hp).
    + destruct c; by apply elem_of_nil in Hpf.
    + by apply elem_of_nil in Hpf.
  - intros (k & Hk & Hp). exists k. split.
    + unfold yields. rewrite Hk. simpl. apply list_elem_of_fmap.
      exists pf.1. split; [by destruct pf | done].
    + apply elem_of_dir. by rewrite Hk.
Qed.

(** X4: [get_callbacks] yields exactly the routes of the methods that
    attribute lookup resolves on the instance.  With the class and its
    base classes in method resolution order, a pair is yielded if and only
    if it is a route of a [def] that is the last of its name in its class
    body, whose name no more derived class binds and which is neither
    [bot] nor [storage], the names [Plugin.__init__] sets on the instance.
    So the routes of a base class are inherited, and an override, routed
    or not, removes the routes of what it overrides. *)
Theorem get_callbacks_resolves_routes mro (pf : string * function B) :
  pf ∈ get_callbacks (instantiate_mro mro) ↔
  ∃ derived front m back bases,
    mro = derived ++ (front ++ m :: back) :: bases
    ∧ (name_of m ∉ name_of <$> back)
    ∧ Forall (λ body, name_of m ∉ name_of <$> body) derived
    ∧ name_of m ≠ "bot" ∧ name_of m ≠ "storage"
    ∧ pf.2 = decorate m
    ∧ pf.1 ∈ default [] (_patterns (def m)) ++ rev (decorators m).
Proof.
  rewrite elem_of_get_callbacks. unfold instantiate_mro. split.
  - intros (k & Hk & Hp).
    apply lookup_union_Some_raw in Hk as [Hk|[Hnone Hk]].
    { rewrite instance_dict_lookup in Hk. by repeat case_decide. }
    rewrite instance_dict_lookup in Hnone.
    apply class_chain_lookup in Hk as (derived & body & bases & -> & Hb & Hk).
    apply class_dict_lookup_last in Hk
      as (front & m & back & -> & <- & Hback & [= E]).
    exists derived, front, m, back, bases. split; [done|]. split; [done|].
    split. { eapply Forall_impl; [exact Hb|]. intros b. simpl.
             by rewrite class_dict_lookup_None. }
    split; [by intros E'; rewrite E' in Hnone|].
    split; [by intros E'; rewrite E' in Hnone|].
    split; [done|]. by rewrite <- decorate_patterns, <- E.
  - intros (derived & front & m & back & bases & -> & Hback & Hb & H1 & H2
            & E & Hp).
    exists (name_of m). rewrite E, decorate_patterns. split; [|done].
    rewrite lookup_union_r
      by (rewrite instance_dict_lookup; by repeat case_decide).
    apply class_chain_lookup. exists derived, (front ++ m :: back), bases.
    split; [done|]. split.
    + eapply Forall_impl; [exact Hb|]. intros b. simpl.
      by rewrite class_dict_lookup_None.
    + by apply class_dict_last.
Qed.

(** X5: a [def] that repeats an earlier name replaces it: of the methods
    with one name only the last is registered, under its own routes; the
    routes of the replaced ones are lost. *)
Theorem last_def_wins before m after :
  name_of m ∉ name_of <$> after →
  (instance_dict : gmap string (attr B)) !! name_of m = None →
  filter (λ pf, __name__ pf.2 = name_of m)
         (get_callbacks (instantiate (before ++ m :: after)))
  = (λ pattern, (pattern, decorate m))
      <$> (default [] (_patterns (def m)) ++ rev (decorators m)).
Proof.
  intros Hlast Hvis.
  assert (E : instantiate (before ++ m :: after) !! name_of m
              = Some (Function (decorate m))).
  { unfold instantiate. rewrite lookup_union_r by done.
    apply lookup_union_Some_l. by apply class_dict_last. }
  unfold get_callbacks. rewrite filter_bind_name.
  - unfold yields. rewrite E. simpl. by rewrite decorate_patterns.
  - apply yields_name.
  - apply dir_NoDup.
  - apply elem_of_dir. rewrite E. eauto.
Qed.

End MoreMethods.

(** A subclass inherits the routes of its base and hides, with an
    override that has no route, the route of [status]. *)
Example inherited_routes :
  get_callbacks (instantiate_mro [ChildPlugin; BasePlugin])
  = [ ("ping", {| __name__ := "ping"; _patterns := Some ["ping"];
                  __call__ := tt |});
      ("pong", {| __name__ := "pong"; _patterns := Some ["pong"];
                  __call__ := tt |}) ].
Proof. vm_compute. reflexivity. Qed.

Lemma last_def_wins_witness :
  (name_of greet_again ∉ name_of <$> ([] : list (method_def unit)))
  ∧ instance_dict !! name_of greet_again = (None : option (attr unit))
  ∧ filter (λ pf, __name__ pf.2 = name_of greet_again)
           (get_callbacks (instantiate (TwoRoutes ++ greet_again :: [])))
    = [("bye", decorate greet_again)].
Proof.
  assert (H : name_of greet_again ∉ name_of <$> ([] : list (method_def unit)))
    by (by intros ?%elem_of_nil).
  split; [exact H|]. split; [reflexivity|].
  exact (last_def_wins TwoRoutes greet_again [] H eq_refl).
Defined.

End RegistryMore.

(** ** The help listing *)

Module HelpProps.
Import Py Registry RegistryProps Help.

(** X6: the help text is the header followed by one line per binding, the
    lines in ascending byte order whatever the registration order: two
    bots with the same bindings in different orders give the same help. *)
Theorem help_lists_sorted_lines (patterns : list documented) :
  ∃ lines,
    help_lines patterns = header :: lines
    ∧ StronglySorted str_le lines
    ∧ lines ≡ₚ render <$> patterns
    ∧ length lines = length patterns
    ∧ ∀ patterns', patterns' ≡ₚ patterns →
        help_text patterns' = help_text patterns.
Proof.
  exists (merge_sort str_le (render <$> patterns)).
  split; [done|]. split; [apply StronglySorted_merge_sort; apply _|].
  split; [apply merge_sort_Permutation|]. split.
  - by rewrite merge_sort_Permutation, length_fmap.
  - intros patterns' Hp. unfold help_text, help_lines. do 2 f_equal.
    apply (StronglySorted_unique str_le).
    + apply StronglySorted_merge_sort; apply _.
    + apply StronglySorted_merge_sort; apply _.
    + by rewrite !merge_sort_Permutation, Hp.
Qed.

(** [test_help_command] *)
Example help_of_test_bot :
  help_text test_patterns
  = "I support following commands:" +:+ newline
    +:+ "  find (?P<this>.*) " +:+ dash +:+ " Making a fake search of the term."
    +:+ newline
    +:+ "  help " +:+ dash +:+ " Shows a help." +:+ newline
    +:+ "  show me a cat " +:+ dash +:+ " Shows a cat.".
Proof. vm_compute. reflexivity. Qed.

End HelpProps.

(** ** Installing the plugins *)

Module ComposerProps.
Import Py Registry RegistryProps Composer.

Section Installing.
Context {B : Type}.
Variable help : B.
Implicit Types plugins : list (list (method_def B)).

Lemma get_callbacks_HelpPlugin :
  get_callbacks (instantiate (HelpPlugin help)) = [("help", (routed_help help))].
Proof. vm_compute. reflexivity. Qed.

Lemma install_patterns plugins :
  (install help plugins).1
  = (cls ← plugins; get_callbacks (instantiate cls)) ++ [("help", (routed_help help))].
Proof.
  unfold install. simpl. rewrite bind_app. f_equal.
Qed.

(** X7: the built-in help binding is always installed, after the bindings
    of every plugin passed in; the list the caller passed has
    [HelpPlugin] appended to it afterwards, so each further bot built from
    the same list gets one more help binding. *)
Theorem help_is_installed_last plugins :
  (install help plugins).1
  = (cls ← plugins; get_callbacks (instantiate cls))
    ++ [("help", routed_help help)]
  ∧ (install help plugins).2 = plugins ++ [HelpPlugin help]
  ∧ ∀ n, install_again help n plugins
         = (cls ← plugins; get_callbacks (instantiate cls))
           ++ replicate (S n) ("help", routed_help help).
Proof.
  split; [apply install_patterns|]. split; [done|].
  intros n. revert plugins. induction n as [|n IH]; intros plugins.
  - apply install_patterns.
  - cbn [install_again]. rewrite IH. simpl. rewrite bind_app, <- app_assoc.
    f_equal.
Qed.

End Installing.

(** [test_install_plugins]: three patterns for [TestPluginClass]. *)
Example three_patterns :
  length (Dispatch.patterns composed_bot) = 3.
Proof. vm_compute. reflexivity. Qed.

Section LastResort.
Context {W : Type}.
Variable re_match :
  string → string → result (option Dispatch.groupdict).
Variable help : Dispatch.callback W.
Implicit Types plugins : list (list (method_def (Dispatch.callback W))).

(** X8: the built-in help is the last resort.  It answers a message that
    its pattern matches only when no binding of the installed plugins
    matches; a plugin binding that matches is the one called, the
    message [help] not excepted. *)
Theorem builtin_help_is_last_resort plugins (request : Dispatch.Request W)
  (w : W) (groups : Dispatch.groupdict) :
  let user := bindings (cls ← plugins; get_callbacks (instantiate cls)) in
  let self := {| Dispatch.patterns := bindings (install help plugins).1;
                 Dispatch.exiting := false |} in
  let out := Dispatch.on_request re_match self (Dispatch.Message request) w in
  re_match "help" (Dispatch.message request) = Ok (Some groups) →
  (Forall (Dispatch.no_match re_match (Dispatch.message request)) user →
   Dispatch.calls out = [Dispatch.Called (length user) groups]
   ∧ Dispatch.world out = (help request groups w).2
   ∧ Dispatch.returned out = Dispatch.checked (help request groups w).1)
  ∧ (∀ before pattern cb after g,
       user = before ++ (pattern, cb) :: after →
       Forall (Dispatch.no_match re_match (Dispatch.message request)) before →
       re_match pattern (Dispatch.message request) = Ok (Some g) →
       Dispatch.calls out = [Dispatch.Called (length before) g]
       ∧ length before < length user
       ∧ Dispatch.world out = (cb request g w).2).
Proof.
  intros user self out Hhelp.
  assert (Hp : Dispatch.patterns self = user ++ [("help", help)]).
  { unfold self, user. cbn [Dispatch.patterns]. rewrite install_patterns.
    unfold bindings. by rewrite fmap_app. }
  unfold out. rewrite DispatchProps.on_request_scan, Hp. simpl. split.
  - intros Hno.
    rewrite DispatchProps.scan_skip,
      (DispatchProps.scan_match _ _ _ _ _ _ groups) by done.
    done.
  - intros before pattern cb after g -> Hno Hm.
    rewrite <- app_assoc. simpl.
    rewrite DispatchProps.scan_skip,
      (DispatchProps.scan_match _ _ _ _ _ _ g) by done.
    rewrite length_app. simpl. repeat split; try done. lia.
Qed.

End LastResort.

(** [test_help_command], from the plugin classes to the response. *)
Example help_command :
  Dispatch.world
    (Dispatch.on_request Dispatch.plain_match composed_bot
       (Dispatch.Message (Dispatch.TestRequest "help")) [])
  = [Help.help_text Help.test_patterns].
Proof. vm_compute. reflexivity. Qed.

Lemma builtin_help_is_last_resort_witness :
  Dispatch.plain_match "help" "help" = Ok (Some [])
  ∧ Dispatch.calls
      (Dispatch.on_request Dispatch.plain_match composed_bot
         (Dispatch.Message (Dispatch.TestRequest "help")) [])
    = [Dispatch.Called 2 []].
Proof.
  split; [reflexivity|].
  refine (proj1 (proj1 (builtin_help_is_last_resort Dispatch.plain_match
                   (Help.help Help.test_patterns) [TestPluginClass]
                   (Dispatch.TestRequest "help") [] [] eq_refl) _)).
  repeat constructor.
Defined.

End ComposerProps.

(** ** More on the dispatch core *)

Module DispatchMore.
Import Py Dispatch DispatchProps BaseRequest.

Section MoreDispatching.
Context {W : Type}.
Variable re_match : string → string → result (option groupdict).
Implicit Types (self : Bot W) (request : Request W) (w : W)
  (before after : list (string * callback W)).

Lemma scan_error request index pattern (cb : callback W) after w e :
  re_match pattern (message request) = Raise e →
  scan re_match request index ((pattern, cb) :: after) w = (Raise e, w, []).
Proof. intros H. simpl. by rewrite H. Qed.


(** X10: an exception raised by the handler of the first matching binding
    comes out of [on_request] as it is: no later binding is tried, nothing
    is responded, and what the handler did before raising stays done. *)
Theorem handler_exception_propagates self request w before pattern
  (cb : callback W) after groups (e : exn) (w' : W) :
  patterns self = before ++ (pattern, cb) :: after →
  Forall (no_match re_match (message request)) before →
  re_match pattern (message request) = Ok (Some groups) →
  cb request groups w = (Raise e, w') →
  let out := on_request re_match self (Message request) w in
  returned out = Raise e
  ∧ calls out = [Called (length before) groups]
  ∧ world out = w'.
Proof.
  intros Hp Hno Hm Hcb out. unfold out.
  rewrite on_request_scan, Hp, scan_skip, (scan_match _ _ _ _ _ _ groups)
    by done.
  by rewrite Hcb.
Qed.

(** X11: a pattern that does not compile stops the dispatch of every
    message that reaches it: [on_request] raises the matcher's error, calls
    no handler and responds nothing, whatever bindings come after it. *)
Theorem broken_pattern_stops_dispatch self request w before pattern
  (cb : callback W) after (e : exn) :
  patterns self = before ++ (pattern, cb) :: after →
  Forall (no_match re_match (message request)) before →
  re_match pattern (message request) = Raise e →
  let out := on_request re_match self (Message request) w in
  returned out = Raise e ∧ calls out = [] ∧ world out = w.
Proof.
  intros Hp Hno Hm out. unfold out.
  by rewrite on_request_scan, Hp, scan_skip, (scan_error _ _ _ _ _ _ e).
Qed.

(** X12: for a request of the base class [Request], whose [respond] is
    not implemented, a message that no binding matches makes [on_request]
    raise [NotImplementedError], with no handler called. *)
Theorem unknown_command_needs_respond self (message : string) w :
  Forall (no_match re_match message) (patterns self) →
  let out := on_request re_match self (Message (base_Request message)) w in
  returned out = Raise (NotImplementedError not_implemented)
  ∧ handler_calls (calls out) = []
  ∧ world out = w.
Proof.
  intros Hno out. unfold out.
  rewrite on_request_scan.
  rewrite <- (app_nil_r (patterns self)), scan_skip, scan_unknown by done.
  done.
Qed.

End MoreDispatching.

Lemma handler_exception_propagates_witness :
  plain_match "show me a cat" "show me a cat" = Ok (Some [])
  ∧ failing (TestRequest "show me a cat") [] []
    = (Raise (ValueError "no cat"), ["looking"])
  ∧ world (on_request plain_match
             {| patterns := [("show me a cat", failing)]; exiting := false |}
             (Message (TestRequest "show me a cat")) [])
    = ["looking"].
Proof.
  split; [reflexivity|]. split; [reflexivity|].
  exact (proj2 (proj2 (handler_exception_propagates plain_match
           {| patterns := [("show me a cat", failing)]; exiting := false |}
           (TestRequest "show me a cat") [] [] "show me a cat" failing []
           [] (ValueError "no cat") ["looking"]
           eq_refl (Forall_nil_2 _) eq_refl eq_refl))).
Defined.

Lemma broken_pattern_stops_dispatch_witness :
  plain_match "a(b" "show me a cat" = Raise (ReError "unsupported pattern")
  ∧ calls (on_request plain_match
             {| patterns := [("a(b", show); ("show me a cat", show_a_cat)];
                exiting := false |}
             (Message (TestRequest "show me a cat")) [])
    = [].
Proof.
  split; [reflexivity|].
  exact (proj1 (proj2 (broken_pattern_stops_dispatch plain_match
           {| patterns := [("a(b", show); ("show me a cat", show_a_cat)];
              exiting := false |}
           (TestRequest "show me a cat") [] [] "a(b" show
           [("show me a cat", show_a_cat)] (ReError "unsupported pattern")
           eq_refl (Forall_nil_2 _) eq_refl))).
Defined.

Lemma unknown_command_needs_respond_witness :
  Forall (no_match plain_match "some command") (patterns test_bot)
  ∧ returned (on_request plain_match test_bot
                (Message (base_Request "some command")) [])
    = Raise (NotImplementedError not_implemented).
Proof.
  assert (H : Forall (no_match plain_match "some command") (patterns test_bot))
    by repeat constructor.
  split; [exact H|].
  exact (proj1 (unknown_command_needs_respond plain_match test_bot
                  "some command" [] H)).
Defined.

End DispatchMore.

(** ** More on the worker lifecycle *)

Module LifecycleProps.
Import Py Worker WorkerProps Lifecycle.


(** X14: once the thread of a stopped worker has ended, [start_worker]
    starts a new loop with an event of its own, not set: the earlier stop
    does not cancel the new worker, and the plugin has one loop again. *)
Theorem restart_after_exit (interval : Z) (s : state) (thread : nat) :
  _thread (self s) = Some thread →
  let s1 := thread_exit thread (stop_worker s) in
  let s2 := start_worker interval s1 in
  has_live_worker s1 = false
  ∧ _thread (self s2) = Some (length (threads s))
  ∧ _event (self s2) = Some (length (events s))
  ∧ is_set s2 (length (events s)) = false
  ∧ has_live_worker s2 = true
  ∧ active_loops s2 = active_loops s1 ++ [new_thread interval s].
Proof.
  intros Ht s1 s2.
  assert (Hself : self s1 = self s).
  { unfold s1, thread_exit, stop_worker. by destruct (_event (self s)). }
  assert (Hev : length (events s1) = length (events s)).
  { unfold s1, thread_exit, stop_worker.
    destruct (_event (self s)); simpl; [by rewrite length_insert | done]. }
  assert (Hth : length (threads s1) = length (threads s)).
  { unfold s1, thread_exit, stop_worker.
    destruct (_event (self s)); simpl; by rewrite length_alter. }
  assert (Hdead : has_live_worker s1 = false).
  { unfold has_live_worker, is_alive. rewrite Hself, Ht.
    unfold s1, thread_exit. simpl. rewrite list_lookup_alter_eq.
    by destruct (threads (stop_worker s) !! thread). }
  clearbody s1. split; [done|].
  unfold s2, start_worker. rewrite Hdead.
  cbn [self _thread _event threads events].
  rewrite Hth, Hev. split; [done|]. split; [done|]. split.
  - unfold is_set. cbn [events]. by rewrite <- Hev, lookup_app_r, Nat.sub_diag.
  - split.
    + unfold has_live_worker, is_alive. cbn [self _thread threads].
      by rewrite <- Hth, lookup_app_r, Nat.sub_diag.
    + unfold active_loops, new_thread. cbn [self ident threads].
      rewrite filter_app, Hself. f_equal. by rewrite filter_cons_True.
Qed.

Lemma restart_after_exit_witness :
  _thread (self (start_worker 60 fresh_plugin)) = Some 0
  ∧ length (active_loops
              (start_worker 30
                 (thread_exit 0 (stop_worker (start_worker 60 fresh_plugin)))))
    = 1.
Proof.
  split; [reflexivity|].
  pose proof (restart_after_exit 30 (start_worker 60 fresh_plugin) 0 eq_refl)
    as (_ & _ & _ & _ & _ & H).
  simpl in H. by rewrite H.
Defined.

Section Scheduling.
Context {W : Type}.
Variable do_job : W → result value * W.
Variable event_is_set : nat → bool.
Variable interval : Z.

#[local] Abbreviation loop := (Worker.loop do_job event_is_set interval).

Hypothesis always_caught : ∀ w, caught (do_job w).1 = true.

(** One iteration with the countdown at zero, when the outcome of
    [do_job] is caught. *)
Lemma job_ticks_job (fuel tick : nat) (w : W) :
  event_is_set tick = false →
  job_ticks (loop (S fuel) tick 0%Z w).2
  = tick :: job_ticks (loop fuel (S tick) interval (do_job w).2).2.
Proof.
  intros Hev.
  rewrite (loop_caught _ _ _ _ _ _ (do_job w).2 (do_job w).1);
    [|done|by destruct (do_job w)|done].
  simpl. by destruct (do_job w).1.
Qed.

Lemma job_ticks_sleep (fuel tick : nat) (countdown : Z) (w : W) :
  event_is_set tick = false → countdown ≠ 0%Z →
  loop (S fuel) tick countdown w = loop fuel (S tick) (countdown - 1)%Z w.
Proof.
  intros Hev Hc. cbn [Worker.loop]. rewrite Hev.
  by rewrite bool_decide_eq_false_2.
Qed.

Lemma filter_ext_Forall {A} (P Q : A → Prop) `{!∀ x, Decision (P x)}
  `{!∀ x, Decision (Q x)} (l : list A) :
  Forall (λ x, P x ↔ Q x) l → filter P l = filter Q l.
Proof.
  induction 1 as [|x l Hx _ IH]; [done|].
  destruct (decide (P x)) as [HP|HP].
  - rewrite !filter_cons_True by tauto. by rewrite IH.
  - rewrite !filter_cons_False by tauto. done.
Qed.

(** The next call comes when the countdown has run out, and then every
    [interval + 1] iterations. *)
Lemma job_ticks_from (n tick d : nat) (w : W) :
  (0 ≤ interval)%Z →
  (∀ k, tick ≤ k < tick + n → event_is_set k = false) →
  job_ticks (loop n tick (Z.of_nat d) w).2
  = filter (λ t, tick + d ≤ t
                 ∧ (t - (tick + d)) mod S (Z.to_nat interval) = 0)
           (seq tick n).
Proof.
  intros Hi. revert tick d w.
  induction n as [|n IH]; intros tick d w Hev; [done|].
  destruct d as [|d].
  - rewrite job_ticks_job by (apply Hev; lia).
    rewrite <- (Z2Nat.id interval) at 2 by done.
    rewrite IH by (intros k Hk; apply Hev; lia).
    cbn [seq]. rewrite filter_cons_True.
    2: { split; [lia|]. replace (tick - (tick + 0)) with 0 by lia.
         apply Nat.Div0.mod_0_l. }
    f_equal. apply filter_ext_Forall, Forall_forall.
    intros t [Ht _]%elem_of_seq.
    set (P := S (Z.to_nat interval)).
    replace (S tick + Z.to_nat interval) with (tick + P) by lia.
    replace (t - (tick + 0)) with (t - tick) by lia.
    assert (HP : 0 < P) by (unfold P; lia). clearbody P.
    split.
    + intros [Hle Hm]. split; [lia|].
      replace (t - tick) with ((t - (tick + P)) + 1 * P) by lia.
      by rewrite Nat.Div0.mod_add.
    + intros [_ Hm].
      apply Nat.Div0.mod_divides in Hm as [c Hc].
      destruct c as [|c]; [nia|].
      assert (tick + P ≤ t) by nia. split; [done|].
      apply Nat.Div0.mod_divides. exists c. nia.
  - rewrite job_ticks_sleep by (try apply Hev; lia).
    replace (Z.of_nat (S d) - 1)%Z with (Z.of_nat d) by lia.
    rewrite IH by (intros k Hk; apply Hev; lia).
    cbn [seq]. rewrite filter_cons_False by lia.
    apply filter_ext_Forall, Forall_forall. intros t _.
    by replace (S tick + d) with (tick + S d) by lia.
Qed.

(** X15: while the event is not set and every outcome of [do_job] is
    caught, a worker with a non-negative interval calls [do_job] in the
    first iteration and then once every [interval + 1] iterations: the
    iterations with a call are the multiples of [interval + 1]. *)
Theorem do_job_every_interval_plus_one (n : nat) (w : W) :
  (0 ≤ interval)%Z →
  (∀ k, k < n → event_is_set k = false) →
  job_ticks (loop n 0 0%Z w).2
  = filter (λ t, t mod S (Z.to_nat interval) = 0) (seq 0 n).
Proof.
  intros Hi Hev.
  change 0%Z with (Z.of_nat 0).
  rewrite (job_ticks_from n 0 0 w) by (try done; intros k Hk; apply Hev; lia).
  apply filter_ext_Forall, Forall_forall. intros t _. simpl.
  rewrite Nat.sub_0_r. split; [by intros [_ ?] | split; [lia | done]].
Qed.

Lemma job_ticks_negative (n tick : nat) (countdown : Z) (w : W) :
  (countdown < 0)%Z →
  (∀ k, tick ≤ k < tick + n → event_is_set k = false) →
  job_ticks (loop n tick countdown w).2 = []
  ∧ (loop n tick countdown w).1.1 = Running (countdown - Z.of_nat n).
Proof.
  revert tick countdown. induction n as [|n IH]; intros tick countdown Hc Hev.
  - simpl. split; [done|]. f_equal. lia.
  - rewrite job_ticks_sleep by (try apply Hev; lia).
    destruct (IH (S tick) (countdown - 1)%Z) as [H1 H2];
      [lia | intros k Hk; apply Hev; lia |].
    split; [done|]. rewrite H2. f_equal. lia.
Qed.

(** X16: with a negative interval the worker calls [do_job] once, in its
    first iteration, and never again: the countdown starts below zero and
    only decreases, while the loop keeps running. *)
Theorem negative_interval_runs_once (n : nat) (w : W) :
  (interval < 0)%Z →
  (∀ k, k ≤ n → event_is_set k = false) →
  job_ticks (loop (S n) 0 0%Z w).2 = [0]
  ∧ (loop (S n) 0 0%Z w).1.1 = Running (interval - Z.of_nat n).
Proof.
  intros Hi Hev.
  destruct (job_ticks_negative n 1 interval (do_job w).2) as [H1 H2];
    [done | intros k Hk; apply Hev; lia |].
  split.
  - rewrite job_ticks_job by (apply Hev; lia). by rewrite H1.
  - rewrite (loop_caught _ _ _ _ _ _ (do_job w).2 (do_job w).1);
      [|apply Hev; lia|by destruct (do_job w)|done].
    done.
Qed.

(** The loop ends at the first test that finds the event set, however
    long it is let run. *)
Lemma loop_stops_at (n tick fuel : nat) (countdown : Z) (w : W) :
  event_is_set (tick + n) = true →
  n < fuel →
  (loop fuel tick countdown w).1.1 = Stopped
  ∧ loop fuel tick countdown w = loop (S n) tick countdown w.
Proof.
  revert tick fuel countdown w.
  induction n as [|n IH]; intros tick fuel countdown w Hset Hfuel.
  - destruct fuel as [|fuel]; [lia|]. rewrite Nat.add_0_r in Hset.
    cbn [Worker.loop]. by rewrite Hset.
  - destruct fuel as [|fuel]; [lia|].
    destruct (event_is_set tick) eqn:Hev.
    { cbn [Worker.loop]. by rewrite Hev. }
    replace (tick + S n) with (S tick + n) in * by lia.
    destruct (decide (countdown = 0%Z)) as [->|Hc].
    + rewrite !(loop_caught _ _ _ _ _ _ (do_job w).2 (do_job w).1);
        [|done|by destruct (do_job w)|done|done|by destruct (do_job w)|done].
      destruct (IH (S tick) fuel interval (do_job w).2) as (H1 & H2);
        [done | lia |].
      by rewrite <- H2.
    + rewrite !job_ticks_sleep by done.
      by destruct (IH (S tick) fuel (countdown - 1)%Z w) as (H1 & H2);
        [done | lia |].
Qed.

(** X17: the loop ends at the first test that finds the event set: if it
    is set at iteration [t], the worker stops at [t] at the latest, has
    called [do_job] only before [t], and runs no longer however long it is
    let run. *)
Theorem cancellation_stops_the_loop (t fuel : nat) (w : W) :
  event_is_set t = true →
  t < fuel →
  (loop fuel 0 0%Z w).1.1 = Stopped
  ∧ loop fuel 0 0%Z w = loop (S t) 0 0%Z w
  ∧ Forall (λ k, k < t) (job_ticks (loop fuel 0 0%Z w).2).
Proof.
  intros Hset Hfuel.
  destruct (loop_stops_at t 0 fuel 0%Z w) as [Hst Hfix]; [done..|].
  split; [done|]. split; [done|]. rewrite Hfix. clear Hst Hfix Hfuel fuel.
  assert (G : ∀ n tick countdown w',
            event_is_set (tick + n) = true →
            Forall (λ k, k < tick + n)
                   (job_ticks (loop (S n) tick countdown w').2)).
  { induction n as [|n IH]; intros tick countdown w' Hn.
    - rewrite Nat.add_0_r in Hn. cbn [Worker.loop]. by rewrite Hn.
    - destruct (event_is_set tick) eqn:Hev.
      { cbn [Worker.loop]. by rewrite Hev. }
      replace (tick + S n) with (S tick + n) in * by lia.
      destruct (decide (countdown = 0%Z)) as [->|Hc].
      + rewrite job_ticks_job by done. constructor; [lia|].
        eapply Forall_impl; [by apply IH|]. simpl. lia.
      + rewrite job_ticks_sleep by done.
        eapply Forall_impl; [by apply IH|]. simpl. lia. }
  by apply (G t 0).
Qed.

Variable on_start on_stop : option (W → result value * W).

(** X18: the hooks of a worker.  If [on_start] raises, the thread dies
    before the first iteration and [do_job] is never called.  Otherwise,
    once the event is found set, [on_stop] is run on what the loop left,
    and the worker has stopped, or died of what [on_stop] raised. *)
Theorem worker_runs_its_hooks (t fuel : nat) (w : W) :
  event_is_set t = true →
  t < fuel →
  let started := run_hook on_start w in
  let looped := loop (S t) 0 0%Z started.2 in
  let stopped := run_hook on_stop looped.1.2 in
  _worker do_job on_start on_stop event_is_set interval fuel w
  = match started.1 with
    | Raise e => (Died e, started.2, [])
    | Ok _ =>
        (match stopped.1 with Ok _ => Stopped | Raise e => Died e end,
         stopped.2, looped.2)
    end.
Proof.
  intros Hset Hfuel started looped stopped.
  unfold _worker, stopped, looped, started.
  destruct (run_hook on_start w) as [[v|e] w0]; cbn [fst snd]; [|done].
  destruct (loop_stops_at t 0 fuel 0%Z w0) as (_ & ->); [done..|].
  destruct (loop_stops_at t 0 (S t) 0%Z w0) as (Hst & _);
    [done | lia |].
  destruct (Worker.loop do_job event_is_set interval (S t) 0 0%Z w0)
    as [[st w1] log].
  cbn [fst snd] in *. subst st.
  by destruct (run_hook on_stop w1) as [[] w2].
Qed.

End Scheduling.

Example ticks_of_interval_two :
  job_ticks (Worker.loop counting_job never_set 2 10 0 0%Z 0).2 = [0; 3; 6; 9].
Proof. vm_compute. reflexivity. Qed.

Lemma do_job_every_interval_plus_one_witness :
  (0 ≤ 2)%Z
  ∧ job_ticks (Worker.loop counting_job never_set 2 10 0 0%Z 0).2
    = filter (λ t, t mod S (Z.to_nat 2) = 0) (seq 0 10).
Proof.
  split; [lia|].
  exact (do_job_every_interval_plus_one counting_job never_set 2
           (λ _, eq_refl) 10 0 ltac:(lia) (λ _ _, eq_refl)).
Defined.

Lemma negative_interval_runs_once_witness :
  (-1 < 0)%Z
  ∧ job_ticks (Worker.loop counting_job never_set (-1) 100 0 0%Z 0).2 = [0].
Proof.
  split; [lia|].
  exact (proj1 (negative_interval_runs_once counting_job never_set (-1)
                  (λ _, eq_refl) 99 0 ltac:(lia) (λ _ _, eq_refl))).
Defined.

Lemma cancellation_stops_the_loop_witness :
  set_from 4 4 = true
  ∧ 4 < 100
  ∧ Worker.loop counting_job (set_from 4) 2 100 0 0%Z 0
    = Worker.loop counting_job (set_from 4) 2 5 0 0%Z 0.
Proof.
  split; [reflexivity|]. split; [lia|].
  exact (proj1 (proj2 (cancellation_stops_the_loop counting_job (set_from 4) 2
                  (λ _, eq_refl) 4 100 0 eq_refl ltac:(lia)))).
Defined.

Lemma worker_runs_its_hooks_witness :
  set_from 4 4 = true
  ∧ 4 < 100
  ∧ _worker counting_job None (Some counting_job) (set_from 4) 2 100 0
    = (Stopped, 3, [Job 0 (Ok VNone); Job 3 (Ok VNone)]).
Proof.
  split; [reflexivity|]. split; [lia|].
  exact (worker_runs_its_hooks counting_job (set_from 4) 2 (λ _, eq_refl)
           None (Some counting_job) 4 100 0 eq_refl ltac:(lia)).
Defined.

End LifecycleProps.

(** ** The mail adapter *)

Module MailProps.
Import Py PyFacts Mail.



Section Replying.
Variable server : smtp_call → option exn.
Variable get_adapter : string → result smtp_config.



End Replying.

(** An answer that is delivered, and one that is not. *)
Example respond_about_cat :
  respond accepting (λ _, Ok without_from) about_cat "the Cat"
  = (Ok VNone,
     [ SMTP_SSL "localhost" 465;
       login "bot@example.org" "secret";
       sendmail "bot@example.org" "alexander-artemenko@yandex.ru"
         {| From := "dev.thebot@ya.ru";
            To := "alexander-artemenko@yandex.ru";
            Subject := "Re: cat";
            In_Reply_To := Some "<1@example.org>";
            body := "the Cat" |};
       quit ]).
Proof. vm_compute. reflexivity. Qed.

Example respond_no_subject :
  respond accepting (λ _, Ok without_from) no_subject "the Cat"
  = (Raise (AttributeError no_lower), []).
Proof. vm_compute. reflexivity. Qed.

Section Sending.
Variable server : smtp_call → option exn.

(** X20: [send] delivers only when no From address is configured and the
    user name holds an [@]: it then makes exactly the calls connect,
    login, sendmail and quit, the envelope sender being the user name.
    With a From address configured it never sends: once connected and
    logged in it raises the [RuntimeError] asking for that option, and the
    session is not closed. *)
Theorem send_needs_no_from (config : smtp_config)
  (to_email message subject : string) (in_reply_to : option string) :
  let out := send server config to_email message subject in_reply_to in
  let auth := login (username config) (password config) in
  (∀ v, out.1 = Ok v →
     from config = None
     ∧ has_at (username config) = true
     ∧ ∃ msg,
         out.2 = [connect config; auth;
                  sendmail (username config) to_email msg; quit]
         ∧ To msg = to_email ∧ Subject msg = subject ∧ body msg = message)
  ∧ (is_Some (from config) →
     raises out.1 = true
     ∧ Forall (λ c, sends_or_quits c = false) out.2
     ∧ (server (connect config) = None → server auth = None →
        out = (Raise (RuntimeError specify_smtp_from),
               [connect config; auth]))).
Proof.
  intros out auth. unfold out, auth, send.
  assert (Hc : sends_or_quits (connect config) = false)
    by (unfold connect; by case_bool_decide).
  destruct (server (connect config)) as [e|] eqn:E1.
  { split; [done|]. intros _. split; [done|]. split; [|done].
    by repeat constructor. }
  destruct (server (login _ _)) as [e|] eqn:E2.
  { split; [done|]. intros _. split; [done|]. split; [|done].
    by repeat constructor. }
  unfold from_email. destruct (from config) as [f|] eqn:Ef.
  { split; [done|]. intros _. split; [done|]. split; [|done].
    by repeat constructor. }
  split; [|by intros [? ?]].
  destruct (has_at (username config)) eqn:Ha; [|done].
  destruct (server (sendmail _ _ _)) as [e|]; [done|].
  destruct (server quit) as [e|]; [done|].
  intros v _. split; [done|]. split; [done|]. eexists. by split.
Qed.

End Sending.

Example send_with_from :
  send accepting with_from "user@example.org" "the Cat" "Re: cat" None
  = (Raise (RuntimeError specify_smtp_from),
     [SMTP "localhost" 25; login "bot@example.org" "secret"]).
Proof. vm_compute. reflexivity. Qed.

Example send_without_from :
  (send accepting without_from "user@example.org" "the Cat" "Re: cat" None).1
  = Ok VNone.
Proof. vm_compute. reflexivity. Qed.

Section Decoding.
Variable decode : string → string → result string.



End Decoding.

Example text_of_alternative :
  _get_text_from_email two_codecs alternative = Ok (Some "find me").
Proof. vm_compute. reflexivity. Qed.

Section Stripping.
Variable is_space : Ascii.ascii → bool.
Implicit Types (line text pre post : list Ascii.ascii) (c : Ascii.ascii).

#[local] Abbreviation spaces := (Forall (λ c, is_space c = true)).
#[local] Abbreviation blank := (Forall (λ c, is_space c = true ∨ c = LF)).

Lemma lstrip_spec line :
  ∃ pre, line = pre ++ lstrip is_space line ∧ spaces pre.
Proof.
  induction line as [|c line (pre & E & Hpre)]; [by exists []|].
  simpl. destruct (is_space c) eqn:Hc.
  - exists (c :: pre). split; [by rewrite E at 1 | by constructor].
  - by exists [].
Qed.

Lemma lstrip_head line c :
  head (lstrip is_space line) = Some c → is_space c = false.
Proof.
  induction line as [|c' line IH]; [done|]. simpl.
  destruct (is_space c') eqn:Hc; [done|]. by intros [= <-].
Qed.

Lemma lstrip_nil line : lstrip is_space line = [] ↔ spaces line.
Proof.
  induction line as [|c line IH]; [done|]. simpl.
  destruct (is_space c) eqn:Hc.
  - rewrite IH. split; [by constructor | by inversion 1].
  - split; [done|]. inversion 1; congruence.
Qed.

Lemma rstrip_spec line :
  ∃ post, line = rstrip is_space line ++ post ∧ spaces post.
Proof.
  unfold rstrip. destruct (lstrip_spec (reverse line)) as (pre & E & Hpre).
  exists (reverse pre). split; [|by apply Forall_reverse].
  by rewrite <- reverse_app, <- E, reverse_involutive.
Qed.

Lemma rstrip_last line c :
  last (rstrip is_space line) = Some c → is_space c = false.
Proof. unfold rstrip. rewrite last_reverse. apply lstrip_head. Qed.

Lemma rstrip_nil line : rstrip is_space line = [] ↔ spaces line.
Proof.
  unfold rstrip. split.
  - intros H. apply (f_equal reverse) in H.
    rewrite reverse_involutive in H. by apply Forall_reverse, lstrip_nil.
  - intros H. apply Forall_reverse, lstrip_nil in H. by rewrite H.
Qed.

Lemma strip_spec line :
  ∃ pre post,
    line = pre ++ strip is_space line ++ post ∧ spaces pre ∧ spaces post.
Proof.
  unfold strip. destruct (lstrip_spec line) as (pre & E & Hpre).
  destruct (rstrip_spec (lstrip is_space line)) as (post & E' & Hpost).
  exists pre, post. split; [|done]. by rewrite <- E'.
Qed.

Lemma strip_nil line : strip is_space line = [] ↔ spaces line.
Proof.
  unfold strip. rewrite rstrip_nil.
  destruct (lstrip_spec line) as (pre & E & Hpre). split; intros H.
  - rewrite E. by apply Forall_app.
  - rewrite E in H. by apply Forall_app in H as [_ ?].
Qed.

Lemma strip_head line c :
  head (strip is_space line) = Some c → is_space c = false.
Proof.
  unfold strip. intros H. apply (lstrip_head line).
  destruct (rstrip_spec (lstrip is_space line)) as (post & E & _).
  rewrite E. by destruct (rstrip is_space (lstrip is_space line)).
Qed.

Lemma split_not_nil text : split text ≠ [].
Proof.
  destruct text as [|c text]; [done|]. simpl.
  case_bool_decide; [done|]. by destruct (split text).
Qed.

Lemma joined_split text : joined (split text) = text.
Proof.
  induction text as [|c text IH]; [done|]. simpl.
  case_bool_decide as Hc.
  - subst c. pose proof (split_not_nil text).
    destruct (split text) as [|l ls]; [done|]. simpl in *. by rewrite IH.
  - pose proof (split_not_nil text).
    destruct (split text) as [|l ls]; [done|].
    rewrite <- IH. by destruct ls.
Qed.

Lemma split_no_LF text : Forall (λ line, LF ∉ line) (split text).
Proof.
  induction text as [|c text IH]; [repeat constructor; by intros ?%elem_of_nil|].
  simpl. case_bool_decide as Hc.
  - constructor; [by intros ?%elem_of_nil | done].
  - destruct (split text) as [|l ls].
    { constructor; [|constructor].
      intros ?%list_elem_of_singleton. congruence. }
    inversion IH; subst. constructor; [|done].
    rewrite elem_of_cons. intros [?|?]; done.
Qed.

Lemma joined_cons line lines :
  lines ≠ [] → joined (line :: lines) = line ++ LF :: joined lines.
Proof. by destruct lines. Qed.

Lemma joined_app lines line rest :
  ∃ pre post,
    joined (lines ++ line :: rest) = pre ++ line ++ post
    ∧ (Forall blank lines → blank pre).
Proof.
  induction lines as [|l lines (pre & post & E & Hpre)].
  - exists [], (match rest with [] => [] | _ => LF :: joined rest end).
    split; [|done]. simpl. destruct rest; [by rewrite app_nil_r | done].
  - exists (l ++ LF :: pre), post. split.
    + rewrite <- app_comm_cons, joined_cons, E by (by destruct lines).
      by rewrite <- app_assoc.
    + intros Hall. inversion Hall; subst. apply Forall_app. split; [done|].
      constructor; [by right | auto].
Qed.

Lemma blank_joined lines : blank (joined lines) ↔ Forall blank lines.
Proof.
  induction lines as [|l lines IH]; [done|].
  destruct lines as [|l' lines].
  - simpl. split; [by constructor | by inversion 1].
  - cbn [joined]. rewrite Forall_app, Forall_cons, IH.
    split.
    + intros (? & _ & ?). by constructor.
    + inversion 1; subst. split; [done|]. split; [by right | done].
Qed.

Lemma spaces_blank line : spaces line → blank line.
Proof. intros H. eapply Forall_impl; [exact H | auto]. Qed.

(** X22: the first line passed on as the message is never empty, holds
    no line feed and neither starts nor ends with white space; it is a
    piece of the text, with nothing but white space and line feeds before
    it.  No line is found exactly when the text holds nothing else. *)
Theorem first_line_is_first_text text :
  (first_line is_space text = None ↔ blank text)
  ∧ ∀ line, first_line is_space text = Some line →
      line ≠ []
      ∧ (LF ∉ line)
      ∧ (∀ c, head line = Some c → is_space c = false)
      ∧ (∀ c, last line = Some c → is_space c = false)
      ∧ ∃ pre post, text = pre ++ line ++ post ∧ blank pre.
Proof.
  unfold first_line. split.
  - rewrite <- (joined_split text) at 2. rewrite blank_joined. split.
    + intros H. apply Forall_forall. intros l Hl.
      destruct (decide (strip is_space l = [])) as [E|E].
      * apply spaces_blank. by apply strip_nil.
      * assert (Hin : strip is_space l ∈
                  filter (λ line, line ≠ []) (strip is_space <$> split text)).
        { apply list_elem_of_filter. split; [done|].
          by apply list_elem_of_fmap_2. }
        destruct (filter _ _); [by apply elem_of_nil in Hin | done].
    + intros H.
      destruct (filter _ _) as [|l ls] eqn:E; [done|]. exfalso.
      assert (Hin : l ∈ filter (λ line, line ≠ [])
                          (strip is_space <$> split text))
        by (rewrite E; left).
      apply list_elem_of_filter in Hin as [Hne Hin].
      apply list_elem_of_fmap in Hin as (l0 & -> & Hin).
      apply Hne, strip_nil. rewrite Forall_forall in H.
      specialize (H l0 Hin).
      pose proof (split_no_LF text) as HLF. rewrite Forall_forall in HLF.
      specialize (HLF l0 Hin).
      apply Forall_forall. intros c Hc.
      rewrite Forall_forall in H. destruct (H c Hc) as [?| ->]; done.
  - intros line Hhead.
    assert (Hne : line ≠ []).
    { apply head_Some_elem_of, list_elem_of_filter in Hhead. tauto. }
    apply head_filter_Some in Hhead as (l1 & l2 & E & Hblank).
    assert (Hsub : ∃ lines l rest,
              split text = lines ++ l :: rest
              ∧ line = strip is_space l
              ∧ Forall (λ l, strip is_space l = []) lines).
    { apply fmap_app_inv in E as (lines & k & -> & Ek & Es).
      symmetry in Ek. apply fmap_cons_inv in Ek as (l & rest & -> & _ & ->).
      exists lines, l, rest. split; [done|]. split; [done|].
      apply Forall_forall. intros l0 Hl0. rewrite Forall_forall in Hblank.
      pose proof (Hblank _ (list_elem_of_fmap_2 (strip is_space) _ _ Hl0)).
      by destruct (decide (strip is_space l0 = [])). }
    destruct Hsub as (lines & l & rest & Hsplit & -> & Hlines).
    split; [done|].
    destruct (strip_spec l) as (pre & post & El & Hpre & Hpost).
    pose proof (split_no_LF text) as HLF. rewrite Hsplit in HLF.
    apply Forall_app in HLF as [_ HLF]. inversion HLF as [|? ? Hl _]; subst.
    split.
    { intros Hin. apply Hl. rewrite El, !elem_of_app. auto. }
    split; [apply strip_head|]. split.
    { unfold strip. apply rstrip_last. }
    destruct (joined_app lines l rest) as (before & after & Ej & Hbefore).
    exists (before ++ pre), (post ++ after). split.
    + rewrite <- (joined_split text), Hsplit, Ej. rewrite El at 1.
      by rewrite <- !app_assoc.
    + apply Forall_app. split; [|by apply spaces_blank].
      apply Hbefore. eapply Forall_impl; [exact Hlines|].
      intros l0 H0. apply spaces_blank. by apply strip_nil.
Qed.

End Stripping.

Example first_line_of_mail :
  first_line ascii_space
    (String.list_ascii_of_string
       (Dispatch.newline +:+ "  find Umputun  " +:+ Dispatch.newline +:+ "bye"))
  = Some (String.list_ascii_of_string "find Umputun").
Proof. vm_compute. reflexivity. Qed.

Lemma first_line_is_first_text_witness :
  first_line ascii_space (String.list_ascii_of_string "  help ")
  = Some (String.list_ascii_of_string "help")
  ∧ String.list_ascii_of_string "help" ≠ [].
Proof.
  split; [reflexivity|].
  exact (proj1 (proj2 (first_line_is_first_text ascii_space
                         (String.list_ascii_of_string "  help "))
                  (String.list_ascii_of_string "help") eq_refl)).
Defined.

Section Fetching.
Variable decode : string → string → result string.
Variable is_space : Ascii.ascii → bool.
Variable full_from : fetched → string + failure.
Variable callback : MailRequest → option exn.
Variable delete : string → option exn.

#[local] Abbreviation process :=
  (Mail.process decode is_space full_from callback delete).



End Fetching.

(** With the callback of this repository's [Bot] the message stays in the
    mailbox: the call fails, the failure is logged, nothing is deleted. *)
Example mail_is_not_deleted :
  Mail.process two_codecs ascii_space (λ _, inl "user@example.org") rejecting
    (λ _, None) fetched_alternative
  = (None,
     [Called {| message_text := "find me";
                from_address := "alexander-artemenko@yandex.ru";
                message_id := Some "<1@example.org>";
                subject := Some "cat" |};
      Logged (Raised (TypeError "on_request() got an unexpected keyword argument 'direct'"))]).
Proof. vm_compute. reflexivity. Qed.

End MailProps.
